(** * Comment tree manager of the blog frontend

    A shallow embedding of the comment-list component
    (components/comment/comment-list.tsx), of the two comment-input
    components and of the blog-detail fetch, with the properties of the
    specification stated over them. *)

From Stdlib Require Import List String Bool Arith NArith Lia DecimalString.
Import ListNotations.
Open Scope string_scope.
Open Scope list_scope.

Local Set Warnings "-register-all".

(** ** JavaScript values used as conditions *)

(** [if (s)] on a string: the empty string is the only falsy one. *)
Definition truthy (s : string) : bool :=
  match s with
  | EmptyString => false
  | String _ _ => true
  end.

(** [if (v)] on a value of type [string | null]. *)
Definition truthy_opt (v : option string) : bool :=
  match v with
  | Some s => truthy s
  | None => false
  end.

(** [a === b] where [b : string | null]. *)
Definition strict_eq_opt (a : string) (b : option string) : bool :=
  match b with
  | Some s => String.eqb a s
  | None => false
  end.

(** ** Data model (interfaces [User] and [Comment]) *)

Module User.
Record t : Type := mk
  { _id : string;
    username : string;
    email : string;
    role : option string }.
End User.

(** An optional field ([f?: T]) is an [option]; [parentComment?: string | null]
    is optional and nullable. *)
Inductive Comment : Type := mkComment
  { _id : string;
    text : string;
    user : User.t;
    createdAt : string;
    likes : list string;
    replies : option (list Comment);
    parentComment : option (option string);
    pinned : option bool;
    edited : option bool;
    editedAt : option string }.

(** [Partial<Comment>]: every key may be absent. *)
Record PartialComment : Type := mkPartial
  { p_id : option string;
    p_text : option string;
    p_user : option User.t;
    p_createdAt : option string;
    p_likes : option (list string);
    p_replies : option (list Comment);
    p_parentComment : option (option string);
    p_pinned : option bool;
    p_edited : option bool;
    p_editedAt : option string }.

(** The forest held in the [comments] state of [CommentList]. *)
Definition Forest : Type := list Comment.

(** A key of the second object of a spread overrides the first one's. *)
Definition override {A : Type} (old : A) (new : option A) : A :=
  match new with
  | Some v => v
  | None => old
  end.

Definition override_opt {A : Type} (old : option A) (new : option A) : option A :=
  match new with
  | Some v => Some v
  | None => old
  end.

(** [{ ...comment, ...updates }] *)
Definition spread (comment : Comment) (updates : PartialComment) : Comment :=
  {| _id := override (_id comment) (p_id updates);
     text := override (text comment) (p_text updates);
     user := override (user comment) (p_user updates);
     createdAt := override (createdAt comment) (p_createdAt updates);
     likes := override (likes comment) (p_likes updates);
     replies := override_opt (replies comment) (p_replies updates);
     parentComment := override_opt (parentComment comment) (p_parentComment updates);
     pinned := override_opt (pinned comment) (p_pinned updates);
     edited := override_opt (edited comment) (p_edited updates);
     editedAt := override_opt (editedAt comment) (p_editedAt updates) |}.

(** [{ ...comment, replies: rs }] *)
Definition with_replies (comment : Comment) (rs : list Comment) : Comment :=
  {| _id := _id comment;
     text := text comment;
     user := user comment;
     createdAt := createdAt comment;
     likes := likes comment;
     replies := Some rs;
     parentComment := parentComment comment;
     pinned := pinned comment;
     edited := edited comment;
     editedAt := editedAt comment |}.

(** [{ ...comment, likes: newLikes }] *)
Definition with_likes (comment : Comment) (newLikes : list string) : Comment :=
  {| _id := _id comment;
     text := text comment;
     user := user comment;
     createdAt := createdAt comment;
     likes := newLikes;
     replies := replies comment;
     parentComment := parentComment comment;
     pinned := pinned comment;
     edited := edited comment;
     editedAt := editedAt comment |}.

(** ** The tree operations of [CommentList] *)

(** The callback of [comments.map] in [updateComment]. *)
Fixpoint updateComment_cb (commentId : string) (updates : PartialComment)
    (comment : Comment) : Comment :=
  if String.eqb (_id comment) commentId then spread comment updates
  else
    match replies comment with
    | Some rs => with_replies comment (map (updateComment_cb commentId updates) rs)
    | None => comment
    end.

Definition updateComment (comments : Forest) (commentId : string)
    (updates : PartialComment) : Forest :=
  map (updateComment_cb commentId updates) comments.

(** The callback of [comments.map] in [updateCommentLikes]. *)
Fixpoint updateCommentLikes_cb (commentId : string) (newLikes : list string)
    (comment : Comment) : Comment :=
  if String.eqb (_id comment) commentId then with_likes comment newLikes
  else
    match replies comment with
    | Some rs => with_replies comment (map (updateCommentLikes_cb commentId newLikes) rs)
    | None => comment
    end.

Definition updateCommentLikes (comments : Forest) (commentId : string)
    (newLikes : list string) : Forest :=
  map (updateCommentLikes_cb commentId newLikes) comments.

(** The callback of [comments.map] in [addReplyToComment]. *)
Fixpoint addReplyToComment_cb (parentId : string) (newComment : Comment)
    (comment : Comment) : Comment :=
  if String.eqb (_id comment) parentId then
    with_replies comment
      (match replies comment with
       | Some rs => rs ++ [newComment]
       | None => [newComment]
       end)
  else
    match replies comment with
    | Some rs => with_replies comment (map (addReplyToComment_cb parentId newComment) rs)
    | None => comment
    end.

Definition addReplyToComment (comments : Forest) (parentId : string)
    (newComment : Comment) : Forest :=
  map (addReplyToComment_cb parentId newComment) comments.

(** The state update of [handleReplySubmit]; [replyingTo : string | null]. *)
Definition handleReplySubmit (replyingTo : option string) (newComment : Comment)
    (prevComments : Forest) : Forest :=
  match replyingTo with
  | Some parentId =>
      if negb (truthy parentId) then prevComments ++ [newComment]
      else addReplyToComment prevComments parentId newComment
  | None => prevComments ++ [newComment]
  end.

(** The state update of [handleDelete], run once the server has answered
    with an ok status:
    [comment._id !== commentId && !comment.replies?.some(r => r._id === commentId)]. *)
Definition handleDelete (prevComments : Forest) (commentId : string) : Forest :=
  filter
    (fun comment =>
       negb (String.eqb (_id comment) commentId)
       && negb (match replies comment with
                | Some rs => existsb (fun reply => String.eqb (_id reply) commentId) rs
                | None => false
                end))
    prevComments.

(** A [for ... of] loop whose body either returns a value or falls through. *)
Section ForOf.
Variables (A R : Type) (body : A -> option R).

Fixpoint for_of (l : list A) : option R :=
  match l with
  | [] => None
  | a :: l' =>
      match body a with
      | Some r => Some r
      | None => for_of l'
      end
  end.
End ForOf.

Arguments for_of {A R} body l.

(** The loop body of [findParentUsername]: [Some r] is [return r], [None]
    falls through to the next iteration.  The recursive call re-enters the
    function, guard included. *)
Fixpoint findParentUsername_body (parentId : option string) (comment : Comment)
    : option string :=
  if strict_eq_opt (_id comment) parentId then Some (User.username (user comment))
  else
    match replies comment with
    | Some rs =>
        let found :=
          if negb (truthy_opt parentId) then None
          else for_of (findParentUsername_body parentId) rs in
        if truthy_opt found then found else None
    | None => None
    end.

Definition findParentUsername (comments : Forest) (parentId : option string)
    : option string :=
  if negb (truthy_opt parentId) then None
  else for_of (findParentUsername_body parentId) comments.

(** ** Vocabulary of the statements *)

(** The children sequence of a node; an absent [replies] has no child. *)
Definition children (c : Comment) : list Comment :=
  match replies c with
  | Some rs => rs
  | None => []
  end.

(** The ids of a forest in depth-first, left-to-right order. *)
Fixpoint ids_node (c : Comment) : list string :=
  _id c :: match replies c with
           | Some rs => flat_map ids_node rs
           | None => []
           end.

Definition ids (F : Forest) : list string := flat_map ids_node F.

(** The node at a position: [i :: p] is position [p] below the [i]-th
    comment of the sequence; the empty position names no node. *)
Fixpoint node_at (F : Forest) (p : list nat) : option Comment :=
  match p with
  | [] => None
  | i :: p' =>
      match nth_error F i with
      | None => None
      | Some c =>
          match p' with
          | [] => Some c
          | _ :: _ => node_at (children c) p'
          end
      end
  end.

(** Position [p] lies strictly below a node whose id is [X]. *)
Definition shadowed (X : string) (F : Forest) (p : list nat) : Prop :=
  exists q r c, p = q ++ r /\ r <> [] /\ node_at F q = Some c /\ _id c = X.

(** The fields of a node other than its children, with the number of
    children (or their absence). *)
Definition same_fields_but_text (c c' : Comment) : Prop :=
  _id c' = _id c /\ user c' = user c /\ createdAt c' = createdAt c /\
  likes c' = likes c /\ parentComment c' = parentComment c /\
  pinned c' = pinned c /\ edited c' = edited c /\ editedAt c' = editedAt c /\
  option_map (@List.length Comment) (replies c') = option_map (@List.length Comment) (replies c).

(** The shape shared by the three [map]-based operations: the first branch
    applies [h] to a matching node, the second rebuilds a node around its
    rewritten replies. *)
Section MapMatch.
Variables (h : Comment -> Comment) (X : string).

Fixpoint map_match_cb (c : Comment) : Comment :=
  if String.eqb (_id c) X then h c
  else
    match replies c with
    | Some rs => with_replies c (map map_match_cb rs)
    | None => c
    end.

Definition map_match (F : Forest) : Forest := map map_match_cb F.
End MapMatch.

(** What [addReplyToComment] does to a matching node. *)
Definition push_reply (newComment : Comment) (c : Comment) : Comment :=
  with_replies c (children c ++ [newComment]).

(** Rewriting the element at one index of a sequence. *)
Fixpoint update_nth {A : Type} (i : nat) (f : A -> A) (l : list A) : list A :=
  match l with
  | [] => []
  | a :: l' =>
      match i with
      | O => f a :: l'
      | S j => a :: update_nth j f l'
      end
  end.

(** The forest in which the node at position [p], and no other, is
    replaced by its image under [h]; its ancestors are rebuilt around it. *)
Fixpoint modify_at (h : Comment -> Comment) (p : list nat) (F : Forest) : Forest :=
  match p with
  | [] => F
  | i :: p' =>
      update_nth i
        (fun c =>
           match p' with
           | [] => h c
           | _ :: _ => match replies c with
                       | Some rs => with_replies c (modify_at h p' rs)
                       | None => c
                       end
           end)
        F
  end.

(** [{ ...comment, text: b }] *)
Definition with_text (comment : Comment) (b : string) : Comment :=
  {| _id := _id comment;
     text := b;
     user := user comment;
     createdAt := createdAt comment;
     likes := likes comment;
     replies := replies comment;
     parentComment := parentComment comment;
     pinned := pinned comment;
     edited := edited comment;
     editedAt := editedAt comment |}.

(** The patches [{ text: b }] and [{ likes }]. *)
Definition patch_text (b : string) : PartialComment :=
  mkPartial None (Some b) None None None None None None None None.

Definition patch_likes (l : list string) : PartialComment :=
  mkPartial None None None None (Some l) None None None None None.

(** ** Sample forests *)

Definition author (name : string) : User.t :=
  User.mk name name EmptyString None.

(** [{ _id: i, user: name, replies: rs }], the other fields blank. *)
Definition node (i name : string) (rs : list Comment) : Comment :=
  mkComment i EmptyString (author name) EmptyString [] (Some rs) None None None None.

(** The reply chain 1 -> 2 -> 3. *)
Definition chain123 : Forest :=
  [node "1" "ann" [node "2" "bob" [node "3" "cy" []]]].

(** Two top-level comments carrying the same id. *)
Definition twins : Forest := [node "1" "ann" []; node "1" "bob" []].

(** How the node found at one position before an edit of the body of node
    [X] relates to the node found there afterwards. *)
Definition text_frame (X b : string) (before after : option Comment) : Prop :=
  match before, after with
  | None, None => True
  | Some c, Some c' =>
      same_fields_but_text c c' /\
      text c' = (if String.eqb (_id c) X then b else text c)
  | _, _ => False
  end.

(** ** The comment inputs *)

(** A JavaScript string as the sequence of its UTF-16 code units, which is
    what [length] and [slice] count. *)
Definition jsstring : Type := list N.

(** WhiteSpace and LineTerminator code units, which [trim] strips. *)
Definition is_white_space (u : N) : bool :=
  (N.eqb u 9 || N.eqb u 10 || N.eqb u 11 || N.eqb u 12 || N.eqb u 13 ||
   N.eqb u 32 || N.eqb u 160 || N.eqb u 5760 ||
   (N.leb 8192 u && N.leb u 8202) ||
   N.eqb u 8232 || N.eqb u 8233 || N.eqb u 8239 || N.eqb u 8287 ||
   N.eqb u 12288 || N.eqb u 65279)%N.

Fixpoint trimStart (s : jsstring) : jsstring :=
  match s with
  | [] => []
  | u :: s' => if is_white_space u then trimStart s' else s
  end.

Definition trimEnd (s : jsstring) : jsstring := rev (trimStart (rev s)).

Definition trim (s : jsstring) : jsstring := trimEnd (trimStart s).

(** [s.slice(0, n)] for [n >= 0]. *)
Definition slice0 (s : jsstring) (n : nat) : jsstring := firstn n s.

(** [if (s)] on a JavaScript string. *)
Definition truthy_js (s : jsstring) : bool :=
  match s with
  | [] => false
  | _ :: _ => true
  end.

(** The body of the POST request of [handleSubmit]. *)
Record CommentRequest : Type := mkRequest
  { req_text : jsstring;
    req_parentComment : option string }.

(** How the POST request ends: an ok response, or an error thrown inside
    the [try] block with its message. *)
Inductive SubmitOutcome : Type :=
  | SubmitOk
  | SubmitFailed (message : string).

(** The component of comment-input.tsx. *)
Module CommentInput.
Definition maxLength : nat := 500.

Record State : Type := mkState
  { commentText : jsstring;
    loading : bool;
    error : string }.

Definition initial : State := mkState [] false EmptyString.

(** [onChange] of the textarea. *)
Definition onChange (value : jsstring) (s : State) : State :=
  mkState (slice0 value maxLength) (loading s) (error s).

(** [handleSubmit], with the request it sends, if any. *)
Definition handleSubmit (token : option string) (parentCommentId : option string)
    (outcome : SubmitOutcome) (s : State) : State * option CommentRequest :=
  if negb (truthy_opt token) then (s, None)
  else if negb (truthy_js (trim (commentText s))) then
    (mkState (commentText s) (loading s) "Comment cannot be empty", None)
  else
    let request := mkRequest (trim (commentText s)) parentCommentId in
    match outcome with
    | SubmitOk => (mkState [] false EmptyString, Some request)
    | SubmitFailed message => (mkState (commentText s) false message, Some request)
    end.

Inductive Event : Type :=
  | Change (value : jsstring)
  | Submit (token : option string) (outcome : SubmitOutcome).

Definition step (parentCommentId : option string) (s : State) (e : Event)
    : State * option CommentRequest :=
  match e with
  | Change value => (onChange value s, None)
  | Submit token outcome => handleSubmit token parentCommentId outcome s
  end.

(** The state after a sequence of events, with the requests sent. *)
Fixpoint run (parentCommentId : option string) (s : State) (es : list Event)
    : State * list CommentRequest :=
  match es with
  | [] => (s, [])
  | e :: es' =>
      let (s1, sent) := step parentCommentId s e in
      let (s2, rest) := run parentCommentId s1 es' in
      (s2, match sent with
           | Some r => r :: rest
           | None => rest
           end)
  end.
End CommentInput.

(** The component [CommentInput] of comment-list.tsx, with its emoji
    picker and its preview. *)
Module CommentListInput.
Definition maxLength : nat := 500.

Record State : Type := mkState
  { commentText : jsstring;
    loading : bool;
    error : string;
    showPreview : bool;
    showEmojiPicker : bool }.

Definition initial : State := mkState [] false EmptyString false false.

(** [onChange] of the textarea. *)
Definition onChange (value : jsstring) (s : State) : State :=
  mkState (slice0 value maxLength) (loading s) (error s)
          (showPreview s) (showEmojiPicker s).

(** [handleEmojiClick]: [setCommentText((prev) => prev + emojiObject.emoji)]. *)
Definition handleEmojiClick (emoji : jsstring) (s : State) : State :=
  mkState (commentText s ++ emoji) (loading s) (error s) (showPreview s) false.

(** [handleSubmit]; [user] tells whether a user is logged in. *)
Definition handleSubmit (token : option string) (user : bool)
    (parentCommentId : option string) (outcome : SubmitOutcome) (s : State)
    : State * option CommentRequest :=
  if negb (truthy_opt token) || negb user then (s, None)
  else if negb (truthy_js (trim (commentText s))) then
    (mkState (commentText s) (loading s) "Comment cannot be empty"
             (showPreview s) (showEmojiPicker s), None)
  else
    let request := mkRequest (trim (commentText s)) parentCommentId in
    match outcome with
    | SubmitOk =>
        (mkState [] false EmptyString false (showEmojiPicker s), Some request)
    | SubmitFailed message =>
        (mkState (commentText s) false message (showPreview s) (showEmojiPicker s),
         Some request)
    end.

Inductive Event : Type :=
  | Change (value : jsstring)
  | EmojiClick (emoji : jsstring)
  | TogglePreview
  | ToggleEmojiPicker
  | Submit (token : option string) (user : bool) (outcome : SubmitOutcome).

Definition step (parentCommentId : option string) (s : State) (e : Event)
    : State * option CommentRequest :=
  match e with
  | Change value => (onChange value s, None)
  | EmojiClick emoji => (handleEmojiClick emoji s, None)
  | TogglePreview =>
      (mkState (commentText s) (loading s) (error s)
               (negb (showPreview s)) (showEmojiPicker s), None)
  | ToggleEmojiPicker =>
      (mkState (commentText s) (loading s) (error s)
               (showPreview s) (negb (showEmojiPicker s)), None)
  | Submit token user outcome => handleSubmit token user parentCommentId outcome s
  end.

Fixpoint run (parentCommentId : option string) (s : State) (es : list Event)
    : State * list CommentRequest :=
  match es with
  | [] => (s, [])
  | e :: es' =>
      let (s1, sent) := step parentCommentId s e in
      let (s2, rest) := run parentCommentId s1 es' in
      (s2, match sent with
           | Some r => r :: rest
           | None => rest
           end)
  end.

(** The emoji U+1F60A, a surrogate pair. *)
Definition smiley : jsstring := [55357%N; 56842%N].

(** Five hundred letters typed, one emoji picked, the comment sent. *)
Definition overlong : list Event :=
  [Change (repeat 97%N 500); EmojiClick smiley; Submit (Some "t") true SubmitOk].
End CommentListInput.

(** ** The blog-detail fetch (component [BlogDetailPage]) *)

Module BlogDetailPage.
(** The fields of [Blog] that the page reads while loading. *)
Record Blog : Type := mkBlog
  { _id : string;
    title : string;
    content : string;
    slug : string;
    readCount : nat;
    commentCount : nat }.

(** A thrown value: an [Error] object with its name and message, or
    something that is not an [Error]. *)
Inductive Thrown : Type :=
  | ErrorObject (name message : string)
  | NotAnError.

(** [new Error(message)] *)
Definition newError (message : string) : Thrown := ErrorObject "Error" message.

(** The parsed body of a response. *)
Record Data : Type := mkData
  { success : bool;
    blog : option Blog;
    message : option string }.

(** Why [response.json()] throws: the body is not JSON (a SyntaxError)
    or the connection is lost while it is read (a TypeError).  The timer
    is cleared by then, so the signal can no longer be aborted. *)
Inductive BodyFailure : Type :=
  | InvalidJson
  | BodyLost.

Definition bodyError (f : BodyFailure) : Thrown :=
  match f with
  | InvalidJson => ErrorObject "SyntaxError" "Unexpected token in JSON"
  | BodyLost => ErrorObject "TypeError" "Failed to fetch"
  end.

(** A response: [contentTypeIsJson] is the test on its content-type
    header, [json] is what [response.json()] gives, or why it throws.  A
    body that never arrives leaves the callback pending; only calls that
    end are described. *)
Record Response : Type := mkResponse
  { ok : bool;
    status : nat;
    statusText : string;
    contentTypeIsJson : bool;
    json : Data + BodyFailure }.

Inductive Settled : Type :=
  | Fulfilled (r : Response)
  | Rejected (e : Thrown).

Record State : Type := mkState
  { st_blog : option Blog;
    st_loading : bool;
    st_error : option string;
    st_retryCount : nat }.

Definition maxRetries : nat := 3.

Definition timeoutMessage : string :=
  "Request timed out. Please check your connection.".

Definition failureMessage : string :=
  "Failed to load blog. It may not exist or the server is unreachable.".

(** [message || fallback] *)
Definition message_or (fallback : string) (message : option string) : string :=
  match message with
  | Some m => if truthy m then m else fallback
  | None => fallback
  end.

(** The [try] block after the fetch has settled: the blog, or the value
    thrown. *)
Definition try_block (settled : Settled) : Blog + Thrown :=
  match settled with
  | Rejected e => inr e
  | Fulfilled r =>
      if negb (ok r) then
        inr (newError ("HTTP error: " ++ statusText r ++ " (Status: "
                       ++ NilEmpty.string_of_uint (Nat.to_uint (status r)) ++ ")"))
      else if negb (contentTypeIsJson r) then
        inr (newError "Invalid response: Expected JSON")
      else
        match json r with
        | inr f => inr (bodyError f)
        | inl data =>
            match blog data with
            | Some b =>
                if success data then inl b
                else inr (newError (message_or "Blog not found" (message data)))
            | None => inr (newError (message_or "Blog not found" (message data)))
            end
        end
  end.

(** [err instanceof Error && err.name === "AbortError"] *)
Definition is_abort (err : Thrown) : bool :=
  match err with
  | ErrorObject name _ => String.eqb name "AbortError"
  | NotAnError => false
  end.

(** The [catch] block, on the state as set before the [try]. *)
Definition catch_block (err : Thrown) (s : State) : State :=
  if is_abort err then
    mkState (st_blog s) (st_loading s) (Some timeoutMessage) (st_retryCount s)
  else if Nat.ltb (st_retryCount s) maxRetries then
    mkState (st_blog s) (st_loading s) (st_error s) (st_retryCount s + 1)
  else
    mkState (st_blog s) (st_loading s) (Some failureMessage) (st_retryCount s).

(** Whether the callback goes past its first test and issues the request. *)
Definition issues_request (s : State) : bool :=
  negb (match st_blog s with Some _ => true | None => false end
        && Nat.eqb (st_retryCount s) 0).

(** [fetchBlogAndIncrementView] given how the awaited fetch settles. *)
Definition fetchBlogAndIncrementView (settled : Settled) (s : State) : State :=
  if negb (issues_request s) then
    mkState (st_blog s) false (st_error s) (st_retryCount s)
  else
    let s1 := mkState (st_blog s) true None (st_retryCount s) in
    let s2 :=
      match try_block settled with
      | inl b => mkState (Some b) (st_loading s1) (st_error s1) 0
      | inr err => catch_block err s1
      end in
    mkState (st_blog s2) false (st_error s2) (st_retryCount s2).
End BlogDetailPage.

(** ** The handlers of [CommentList] around the tree operations *)

(** The patch that [handleEdit] hands to [updateComment]:
    [{ text: editContent, edited: true, editedAt: now }]. *)
Definition handleEdit_updates (editContent now : string) : PartialComment :=
  mkPartial None (Some editContent) None None None None None None
            (Some true) (Some now).

(** The second of two patches wins on the keys both hold. *)
Definition merge_updates (u1 u2 : PartialComment) : PartialComment :=
  mkPartial (override_opt (p_id u1) (p_id u2))
            (override_opt (p_text u1) (p_text u2))
            (override_opt (p_user u1) (p_user u2))
            (override_opt (p_createdAt u1) (p_createdAt u2))
            (override_opt (p_likes u1) (p_likes u2))
            (override_opt (p_replies u1) (p_replies u2))
            (override_opt (p_parentComment u1) (p_parentComment u2))
            (override_opt (p_pinned u1) (p_pinned u2))
            (override_opt (p_edited u1) (p_edited u2))
            (override_opt (p_editedAt u1) (p_editedAt u2)).

(** ** The image list of [CreateBlogPage] *)

Module CreateBlogPage.
Section Images.
(** The browser's [File] objects and [URL.createObjectURL]. *)
Variable File : Type.
Variable createObjectURL : File -> string.

Record State : Type := mkState
  { loading : bool;
    imageFiles : list File;
    previewUrls : list string }.

Definition initial : State := mkState false [] [].

(** [handleImageChange] on the files picked. *)
Definition handleImageChange (newFiles : list File) (s : State) : State :=
  if Nat.ltb 5 (List.length (imageFiles s) + List.length newFiles) then s
  else mkState (loading s) (imageFiles s ++ newFiles)
               (previewUrls s ++ map createObjectURL newFiles).

(** [prev.filter((_, i) => i !== index)], the elements numbered from [i]. *)
Fixpoint filter_not_index {A : Type} (index i : nat) (l : list A) : list A :=
  match l with
  | [] => []
  | a :: l' =>
      if negb (Nat.eqb i index) then a :: filter_not_index index (S i) l'
      else filter_not_index index (S i) l'
  end.

Definition removeImage (index : nat) (s : State) : State :=
  mkState (loading s) (filter_not_index index 0 (imageFiles s))
          (filter_not_index index 0 (previewUrls s)).

Definition clearAllImages (s : State) : State := mkState (loading s) [] [].

(** [onSubmit], with the images of the request it sends, if any. *)
Definition onSubmit (token : option string) (outcome : SubmitOutcome) (s : State)
    : State * option (list File) :=
  if negb (truthy_opt token) then
    (mkState false (imageFiles s) (previewUrls s), None)
  else
    match outcome with
    | SubmitOk => (mkState false [] [], Some (imageFiles s))
    | SubmitFailed _ =>
        (mkState false (imageFiles s) (previewUrls s), Some (imageFiles s))
    end.

Inductive Event : Type :=
  | PickImages (newFiles : list File)
  | RemoveImage (index : nat)
  | ClearAll
  | Submit (token : option string) (outcome : SubmitOutcome).

Definition step (s : State) (e : Event) : State * option (list File) :=
  match e with
  | PickImages newFiles => (handleImageChange newFiles s, None)
  | RemoveImage index => (removeImage index s, None)
  | ClearAll => (clearAllImages s, None)
  | Submit token outcome => onSubmit token outcome s
  end.

(** The state after a sequence of events, with the image lists sent. *)
Fixpoint run (s : State) (es : list Event) : State * list (list File) :=
  match es with
  | [] => (s, [])
  | e :: es' =>
      let (s1, sent) := step s e in
      let (s2, rest) := run s1 es' in
      (s2, match sent with
           | Some r => r :: rest
           | None => rest
           end)
  end.

(** The previews are those of the files, one for one, and there are at
    most five files. *)
Definition images_aligned (s : State) : Prop :=
  previewUrls s = map createObjectURL (imageFiles s) /\
  List.length (imageFiles s) <= 5.
End Images.

Arguments images_aligned {File} createObjectURL s.
Arguments mkState {File} loading imageFiles previewUrls.
Arguments loading {File} s.
Arguments imageFiles {File} s.
Arguments previewUrls {File} s.
Arguments initial {File}.
Arguments handleImageChange {File} createObjectURL newFiles s.
Arguments removeImage {File} index s.
Arguments clearAllImages {File} s.
Arguments onSubmit {File} token outcome s.
Arguments PickImages {File} newFiles.
Arguments RemoveImage {File} index.
Arguments ClearAll {File}.
Arguments Submit {File} token outcome.
Arguments step {File} createObjectURL s e.
Arguments run {File} createObjectURL s es.
End CreateBlogPage.

(** ** The lightbox of [BlogDetailPage] *)

Module Lightbox.
(** A JavaScript number used as an index: a natural number, or NaN. *)
Inductive JsIndex : Type :=
  | Index (i : nat)
  | NaN.

(** [(photoIndex + n - 1) % n] and [(photoIndex + 1) % n]; a remainder by
    zero is NaN. *)
Definition previousIndex (photoIndex : JsIndex) (n : nat) : JsIndex :=
  match photoIndex with
  | Index i => if Nat.eqb n 0 then NaN else Index ((i + n - 1) mod n)
  | NaN => NaN
  end.

Definition nextIndex (photoIndex : JsIndex) (n : nat) : JsIndex :=
  match photoIndex with
  | Index i => if Nat.eqb n 0 then NaN else Index ((i + 1) mod n)
  | NaN => NaN
  end.

Record State : Type := mkState
  { isLightboxOpen : bool;
    photoIndex : JsIndex }.

Definition initial : State := mkState false (Index 0).

(** The clicks the page offers; [ClickThumbnail index] is the click on the
    element of [blog.images.slice(1)] at [index]. *)
Inductive Event : Type :=
  | ClickMainImage
  | ClickThumbnail (index : nat)
  | ClickPrevious
  | ClickNext
  | ClickClose.

(** Whether the control is rendered, for [n = blog.images.length]. *)
Definition rendered (n : nat) (s : State) (e : Event) : bool :=
  match e with
  | ClickMainImage => Nat.ltb 0 n
  | ClickThumbnail index => Nat.ltb 1 n && Nat.ltb index (n - 1)
  | ClickPrevious | ClickNext | ClickClose => isLightboxOpen s
  end.

Definition step (n : nat) (s : State) (e : Event) : State :=
  if negb (rendered n s e) then s
  else
    match e with
    | ClickMainImage => mkState true (photoIndex s)
    | ClickThumbnail index => mkState true (Index (index + 1))
    | ClickPrevious => mkState (isLightboxOpen s) (previousIndex (photoIndex s) n)
    | ClickNext => mkState (isLightboxOpen s) (nextIndex (photoIndex s) n)
    | ClickClose => mkState false (photoIndex s)
    end.
End Lightbox.

(** ** The view counter of [BlogDetailPage] *)

Module ViewCounter.
(** How the PATCH request ends: the server counted the view and answers
    with the new read count, or anything else (an error status, a body
    that is not JSON, [success] false, a rejected fetch). *)
Inductive ViewOutcome : Type :=
  | Counted (readCount : nat)
  | NotCounted.

(** The item [viewedBlogs] of the session storage, absent or a list of
    blog ids, and the [blog] state. *)
Record State : Type := mkState
  { stored : option (list string);
    blog : option BlogDetailPage.Blog }.

(** [JSON.parse(sessionStorage.getItem("viewedBlogs") || "[]")] *)
Definition viewedBlogs (s : State) : list string :=
  match stored s with
  | Some l => l
  | None => []
  end.

(** [viewedBlogs.includes(blogId)] *)
Definition includes (l : list string) (x : string) : bool :=
  existsb (String.eqb x) l.

(** [prev ? { ...prev, readCount } : prev] *)
Definition with_readCount (prev : option BlogDetailPage.Blog) (readCount : nat)
    : option BlogDetailPage.Blog :=
  match prev with
  | Some b =>
      Some (BlogDetailPage.mkBlog (BlogDetailPage._id b) (BlogDetailPage.title b)
              (BlogDetailPage.content b) (BlogDetailPage.slug b) readCount
              (BlogDetailPage.commentCount b))
  | None => None
  end.

(** The body of [incrementViewCount], with whether a request was sent. *)
Definition incrementViewCount (blogId : string) (outcome : ViewOutcome) (s : State)
    : State * bool :=
  if includes (viewedBlogs s) blogId then (s, false)
  else
    match outcome with
    | Counted readCount =>
        (mkState (Some (viewedBlogs s ++ [blogId])) (with_readCount (blog s) readCount),
         true)
    | NotCounted => (s, true)
    end.

(** The number of requests sent over a sequence of calls for one blog. *)
Fixpoint requests (blogId : string) (outcomes : list ViewOutcome) (s : State) : nat :=
  match outcomes with
  | [] => 0
  | o :: os =>
      let (s', sent) := incrementViewCount blogId o s in
      (if sent then 1 else 0) + requests blogId os s'
  end.
End ViewCounter.

(** The code units added by the emoji clicks of a sequence of events of the
    input of comment-list.tsx. *)
Fixpoint emoji_units (es : list CommentListInput.Event) : nat :=
  match es with
  | [] => 0
  | CommentListInput.EmojiClick emoji :: es' => List.length emoji + emoji_units es'
  | _ :: es' => emoji_units es'
  end.

(** * Properties *)

(** ** Induction over comments and basic facts *)

(** Unique ids of a forest that is written out. *)
Ltac unique_ids := simpl; repeat constructor; simpl; intuition discriminate.

Section CommentInduction.
Variable P : Comment -> Prop.
Hypothesis step : forall c, Forall P (children c) -> P c.

Lemma Comment_children_ind : forall c, P c.
Proof.
  fix IH 1.
  intros [i t u ca l r pc pn e ea].
  apply step. unfold children; simpl.
  destruct r as [rs|]; [|constructor].
  induction rs as [|c rs IHrs]; constructor; [apply IH | exact IHrs].
Qed.

Lemma Forest_children_ind : forall F : Forest, Forall P F.
Proof.
  induction F; constructor; auto using Comment_children_ind.
Qed.
End CommentInduction.

Lemma map_ext_Forall {A B : Type} (f g : A -> B) (l : list A) :
  Forall (fun a => f a = g a) l -> map f l = map g l.
Proof. induction 1; simpl; congruence. Qed.

Lemma map_id_Forall {A : Type} (f : A -> A) (l : list A) :
  Forall (fun a => f a = a) l -> map f l = l.
Proof. induction 1; simpl; congruence. Qed.

(** Each operation is an instance of the common shape. *)
Lemma updateComment_shape F X u :
  updateComment F X u = map_match (fun c => spread c u) X F.
Proof.
  unfold updateComment, map_match. apply map_ext_Forall.
  apply Forest_children_ind. intros c IH. destruct c as [i t us ca l r pc pn e ea].
  unfold children in IH; simpl in *.
  destruct (String.eqb i X); [reflexivity|].
  destruct r as [rs|]; [|reflexivity].
  f_equal. apply map_ext_Forall, IH.
Qed.

Lemma updateCommentLikes_shape F X l :
  updateCommentLikes F X l = map_match (fun c => with_likes c l) X F.
Proof.
  unfold updateCommentLikes, map_match. apply map_ext_Forall.
  apply Forest_children_ind. intros c IH. destruct c as [i t us ca lk r pc pn e ea].
  unfold children in IH; simpl in *.
  destruct (String.eqb i X); [reflexivity|].
  destruct r as [rs|]; [|reflexivity].
  f_equal. apply map_ext_Forall, IH.
Qed.

Lemma addReplyToComment_shape F X N :
  addReplyToComment F X N = map_match (push_reply N) X F.
Proof.
  unfold addReplyToComment, map_match. apply map_ext_Forall.
  apply Forest_children_ind. intros c IH. destruct c as [i t us ca lk r pc pn e ea].
  unfold children in IH; simpl in *.
  destruct (String.eqb i X).
  - unfold push_reply, children; simpl. destruct r; reflexivity.
  - destruct r as [rs|]; [|reflexivity].
    f_equal. apply map_ext_Forall, IH.
Qed.

(** *** Ids *)

Lemma ids_app F G : ids (F ++ G) = ids F ++ ids G.
Proof. unfold ids. apply flat_map_app. Qed.

Lemma ids_cons c F : ids (c :: F) = _id c :: ids (children c) ++ ids F.
Proof.
  unfold ids, children; simpl. destruct c as [i t us ca lk [rs|] pc pn e ea]; reflexivity.
Qed.

Lemma ids_node_children c : ids_node c = _id c :: ids (children c).
Proof. destruct c as [i t us ca lk [rs|] pc pn e ea]; reflexivity. Qed.

Lemma in_ids F X : In X (ids F) <-> exists c, In c F /\ In X (ids_node c).
Proof. unfold ids. apply in_flat_map. Qed.

Lemma in_ids_node c X : In X (ids_node c) <-> X = _id c \/ In X (ids (children c)).
Proof. rewrite ids_node_children. simpl. intuition congruence. Qed.

(** Without a node carrying the id, the common shape changes nothing. *)
Lemma map_match_cb_absent h X c : ~ In X (ids_node c) -> map_match_cb h X c = c.
Proof.
  induction c as [c IH] using Comment_children_ind. intros Hc.
  rewrite in_ids_node in Hc.
  destruct c as [i t us ca lk r pc pn e ea]; unfold children in *; simpl in *.
  destruct (String.eqb_spec i X) as [->|Hne]; [exfalso; auto|].
  destruct r as [rs|]; [|reflexivity].
  unfold with_replies; simpl. do 2 f_equal. apply map_id_Forall.
  rewrite Forall_forall in *. intros d Hd. apply IH; [exact Hd|].
  intros Hin. apply Hc. right. apply in_ids. eauto.
Qed.

Lemma map_match_absent h X F : ~ In X (ids F) -> map_match h X F = F.
Proof.
  intros HX. apply map_id_Forall, Forall_forall. intros c Hc.
  apply map_match_cb_absent. intros Hin. apply HX, in_ids. eauto.
Qed.

(** *** Positions *)

Lemma node_at_nil_forest p : node_at [] p = None.
Proof. destruct p as [|[|i] p]; reflexivity. Qed.

Lemma node_at_below F i j p :
  node_at F (i :: j :: p) =
  match nth_error F i with
  | Some c => node_at (children c) (j :: p)
  | None => None
  end.
Proof. reflexivity. Qed.

Lemma node_at_in_ids F p c : node_at F p = Some c -> In (_id c) (ids F).
Proof.
  revert F c. induction p as [|i p IH]; intros F c H; [discriminate|].
  simpl in H. destruct (nth_error F i) as [c0|] eqn:E; [|discriminate].
  apply in_ids. exists c0. split; [eapply nth_error_In; eauto|].
  apply in_ids_node. destruct p as [|j p].
  - left. congruence.
  - right. apply IH. exact H.
Qed.

Lemma in_ids_node_at F X :
  In X (ids F) -> exists p c, node_at F p = Some c /\ _id c = X.
Proof.
  enough (HF : Forall (fun c => forall G i, nth_error G i = Some c ->
            In X (ids_node c) -> exists p c', node_at G (i :: p) = Some c' /\ _id c' = X) F).
  { intros Hin. apply in_ids in Hin. destruct Hin as (c & Hc & HX).
    destruct (In_nth_error _ _ Hc) as [i Hi].
    rewrite Forall_forall in HF. destruct (HF c Hc F i Hi HX) as (p & c' & H).
    exists (i :: p), c'. exact H. }
  apply Forest_children_ind. intros c IH G i Hi HX.
  apply in_ids_node in HX. destruct HX as [->|HX].
  - exists [], c. simpl. rewrite Hi. auto.
  - apply in_ids in HX. destruct HX as (d & Hd & HX).
    rewrite Forall_forall in IH. destruct (In_nth_error _ _ Hd) as [j Hj].
    destruct (IH d Hd (children c) j Hj HX) as (p & c' & Hp & Hid).
    exists (j :: p), c'. split; [|exact Hid].
    rewrite node_at_below, Hi. exact Hp.
Qed.

(** *** Unique ids *)

Lemma NoDup_app_disjoint {A : Type} (l m : list A) x :
  NoDup (l ++ m) -> In x l -> ~ In x m.
Proof.
  induction l as [|a l IH]; simpl; intros H Hl Hm; [exact Hl|].
  inversion H as [|? ? Ha H']; subst.
  destruct Hl as [->|Hl]; [|exact (IH H' Hl Hm)].
  apply Ha, in_or_app. right. exact Hm.
Qed.

Lemma NoDup_ids_split l1 c l2 :
  NoDup (ids (l1 ++ c :: l2)) ->
  NoDup (ids (children c)) /\ ~ In (_id c) (ids (children c)) /\
  forall X, In X (ids_node c) -> ~ In X (ids l1) /\ ~ In X (ids l2).
Proof.
  rewrite ids_app. change (ids (c :: l2)) with (ids_node c ++ ids l2).
  intros H. pose proof (NoDup_app_remove_l _ _ H) as H2.
  pose proof (NoDup_app_remove_r _ _ H2) as Hc.
  rewrite ids_node_children in Hc. inversion Hc as [|x l Hx Hl]; subst.
  repeat split; auto.
  - intros H1. apply (NoDup_app_disjoint _ _ X H H1).
    apply in_or_app. left. assumption.
  - apply (NoDup_app_disjoint _ _ X H2). assumption.
Qed.

Lemma NoDup_ids_nth F i c :
  NoDup (ids F) -> nth_error F i = Some c ->
  NoDup (ids (children c)) /\ ~ In (_id c) (ids (children c)).
Proof.
  intros H Hi. destruct (nth_error_split _ _ Hi) as (l1 & l2 & -> & _).
  destruct (NoDup_ids_split _ _ _ H) as (H1 & H2 & _). auto.
Qed.

(** *** The common shape, position by position *)

Lemma map_match_cb_eq h X c :
  map_match_cb h X c =
  if String.eqb (_id c) X then h c
  else match replies c with
       | Some rs => with_replies c (map_match h X rs)
       | None => c
       end.
Proof. destruct c; reflexivity. Qed.

Lemma children_map_match_cb h X c :
  String.eqb (_id c) X = false ->
  children (map_match_cb h X c) = map_match h X (children c).
Proof.
  intros E. rewrite map_match_cb_eq, E. unfold children.
  destruct (replies c) as [rs|] eqn:R; simpl; [reflexivity|].
  rewrite R. reflexivity.
Qed.

Lemma nth_error_map_match h X F i :
  nth_error (map_match h X F) i = option_map (map_match_cb h X) (nth_error F i).
Proof. apply nth_error_map. Qed.

Lemma update_nth_split {A : Type} (f : A -> A) l1 a l2 :
  update_nth (List.length l1) f (l1 ++ a :: l2) = l1 ++ f a :: l2.
Proof. induction l1; simpl; congruence. Qed.

(** With unique ids, the common shape rewrites exactly the node that
    carries the id. *)
Lemma map_match_unique h X p : forall F c,
  NoDup (ids F) -> node_at F p = Some c -> _id c = X ->
  map_match h X F = modify_at h p F.
Proof.
  induction p as [|i p IH]; intros F c HF Hp Hid; [discriminate|].
  simpl in Hp. destruct (nth_error F i) as [c0|] eqn:Hi; [|discriminate].
  destruct (nth_error_split _ _ Hi) as (l1 & l2 & -> & <-).
  destruct (NoDup_ids_split _ _ _ HF) as (Hch & Hself & Hout).
  assert (Hin : In X (ids_node c0)).
  { apply in_ids_node. destruct p; [left; congruence|].
    right. rewrite <- Hid. eapply node_at_in_ids; eauto. }
  destruct (Hout X Hin) as [H1 H2].
  unfold map_match at 1. rewrite map_app. simpl map.
  fold (map_match h X l1) (map_match h X l2).
  rewrite !map_match_absent by assumption.
  cbn [modify_at]. rewrite update_nth_split. do 2 f_equal.
  rewrite map_match_cb_eq. destruct p as [|j p].
  - injection Hp as ->. rewrite Hid, String.eqb_refl. reflexivity.
  - assert (Hne : String.eqb (_id c0) X = false).
    { apply String.eqb_neq. intros E. apply Hself. rewrite E, <- Hid.
      eapply node_at_in_ids; eauto. }
    rewrite Hne. unfold children in *. destruct (replies c0) as [rs|].
    + f_equal. eapply IH; eauto.
    + rewrite node_at_nil_forest in Hp. discriminate.
Qed.

Lemma shadowed_below X F i j p c0 :
  nth_error F i = Some c0 ->
  shadowed X F (i :: j :: p) <-> _id c0 = X \/ shadowed X (children c0) (j :: p).
Proof.
  intros Hi. split.
  - intros (q & r & c & Hqr & Hr & Hq & Hid).
    destruct q as [|i' q]; [discriminate|].
    simpl in Hqr. injection Hqr as <- Hqr.
    destruct q as [|j' q].
    + left. simpl in Hq. rewrite Hi in Hq. congruence.
    + right. exists (j' :: q), r, c. repeat split; auto.
      rewrite node_at_below, Hi in Hq. exact Hq.
  - intros [Hid|(q & r & c & Hqr & Hr & Hq & Hid)].
    + exists [i], (j :: p), c0. repeat split; auto; [discriminate|].
      simpl. rewrite Hi. reflexivity.
    + destruct q as [|j' q]; [discriminate|].
      exists (i :: j' :: q), r, c. repeat split; auto.
      * simpl. simpl in Hqr. congruence.
      * rewrite node_at_below, Hi. exact Hq.
Qed.

Lemma not_shadowed_top X F i : ~ shadowed X F [i].
Proof.
  intros (q & r & c & Hqr & Hr & Hq & _).
  destruct q as [|i' q]; [discriminate|].
  destruct q; destruct r; try discriminate. congruence.
Qed.

(** Every node that carries the id and has no ancestor carrying it is
    rewritten. *)
Lemma map_match_outermost h X p : forall F c,
  node_at F p = Some c -> _id c = X -> ~ shadowed X F p ->
  node_at (map_match h X F) p = Some (h c).
Proof.
  induction p as [|i p IH]; intros F c Hp Hid Hs; [discriminate|].
  destruct p as [|j p].
  - simpl in *. rewrite nth_error_map_match.
    destruct (nth_error F i) as [c0|]; [|discriminate].
    injection Hp as ->. simpl. rewrite map_match_cb_eq, Hid, String.eqb_refl.
    reflexivity.
  - rewrite node_at_below in *. rewrite nth_error_map_match.
    destruct (nth_error F i) as [c0|] eqn:Hi; [|discriminate]. simpl.
    rewrite (shadowed_below X F i j p c0 Hi) in Hs.
    assert (Hne : String.eqb (_id c0) X = false).
    { apply String.eqb_neq. tauto. }
    rewrite (children_map_match_cb h X c0 Hne). apply IH; tauto.
Qed.

(** A node below one that carries the id is out of reach, as long as the
    rewriting of a matching node keeps its children in place. *)
Lemma map_match_shadowed h X p : forall F c,
  (forall d i d', nth_error (children d) i = Some d' ->
                  nth_error (children (h d)) i = Some d') ->
  node_at F p = Some c -> shadowed X F p ->
  node_at (map_match h X F) p = Some c.
Proof.
  induction p as [|i p IH]; intros F c Hh Hp Hs; [discriminate|].
  destruct p as [|j p]; [destruct (not_shadowed_top X F i Hs)|].
  rewrite node_at_below in *. rewrite nth_error_map_match.
  destruct (nth_error F i) as [c0|] eqn:Hi; [|discriminate]. simpl.
  rewrite (shadowed_below X F i j p c0 Hi) in Hs.
  destruct (String.eqb_spec (_id c0) X) as [E|E].
  - rewrite map_match_cb_eq. rewrite <- E at 1. rewrite String.eqb_refl.
    clear - Hh Hp. cbn [node_at] in *.
    destruct (nth_error (children c0) j) as [d|] eqn:Hj; [|discriminate].
    rewrite (Hh _ _ _ Hj). exact Hp.
  - rewrite children_map_match_cb by (apply String.eqb_neq; exact E).
    apply IH; tauto.
Qed.

Lemma nth_error_update_nth {A : Type} (f : A -> A) i l :
  nth_error (update_nth i f l) i = option_map f (nth_error l i).
Proof.
  revert i. induction l as [|a l IH]; intros [|i]; simpl; auto.
Qed.

Lemma children_with_replies c rs : children (with_replies c rs) = rs.
Proof. reflexivity. Qed.

Lemma node_at_modify_at h p : forall F c,
  node_at F p = Some c -> node_at (modify_at h p F) p = Some (h c).
Proof.
  induction p as [|i p IH]; intros F c Hp; [discriminate|].
  destruct p as [|j p].
  - simpl in *. rewrite nth_error_update_nth.
    destruct (nth_error F i); [|discriminate]. injection Hp as ->. reflexivity.
  - rewrite node_at_below in Hp. cbn [modify_at].
    rewrite node_at_below, nth_error_update_nth.
    destruct (nth_error F i) as [c0|]; [|discriminate]. simpl option_map. cbv iota.
    unfold children in Hp at 1. destruct (replies c0) as [rs|].
    + rewrite children_with_replies. apply IH. exact Hp.
    + rewrite node_at_nil_forest in Hp. discriminate.
Qed.

Lemma spread_patch_text c b : spread c (patch_text b) = with_text c b.
Proof. destruct c; reflexivity. Qed.

Lemma spread_patch_likes c l : spread c (patch_likes l) = with_likes c l.
Proof. destruct c; reflexivity. Qed.

Lemma map_match_ext h h' X F :
  (forall c, h c = h' c) -> map_match h X F = map_match h' X F.
Proof.
  intros Hh. unfold map_match. apply map_ext_Forall.
  apply Forest_children_ind. intros c IH. rewrite !map_match_cb_eq.
  destruct (String.eqb (_id c) X); [apply Hh|].
  unfold children in IH. destruct (replies c) as [rs|]; [|reflexivity].
  f_equal. apply map_ext_Forall, IH.
Qed.

Lemma truthy_true s : truthy s = true <-> s <> EmptyString.
Proof. destruct s; simpl; split; congruence. Qed.

(** ** The specialised like update and the general patch (C6) *)

(** C6. For every forest, id and likes list, [updateCommentLikes] returns
    the very forest that [updateComment] returns on the patch that holds
    the likes alone. *)
Theorem updateCommentLikes_is_updateComment (F : Forest) (X : string)
    (newLikes : list string) :
  updateCommentLikes F X newLikes = updateComment F X (patch_likes newLikes).
Proof.
  rewrite updateCommentLikes_shape, updateComment_shape.
  apply map_match_ext. intros c. symmetry. apply spread_patch_likes.
Qed.

(** ** An id that no node carries (C4) *)

Lemma handleDelete_absent F X : ~ In X (ids F) -> handleDelete F X = F.
Proof.
  intros HX. unfold handleDelete. apply forallb_filter_id, forallb_forall.
  intros c Hc.
  assert (Hn : ~ In X (ids_node c)) by (intros H; apply HX, in_ids; eauto).
  rewrite in_ids_node in Hn. apply andb_true_intro. split.
  - apply negb_true_iff, String.eqb_neq. intros E. apply Hn. left. congruence.
  - apply negb_true_iff. unfold children in Hn.
    destruct (replies c) as [rs|]; [|reflexivity].
    apply not_true_is_false. intros H. apply existsb_exists in H.
    destruct H as (r & Hr & E). apply String.eqb_eq in E.
    apply Hn. right. apply in_ids. exists r. split; [exact Hr|].
    apply in_ids_node. left. congruence.
Qed.

(** C4. When no node of the forest carries the id, each of
    [addReplyToComment], [updateComment], [updateCommentLikes] and the
    deletion filter returns the forest it was given; all four are total
    functions, so none of them fails. *)
Theorem absent_id_is_noop (F : Forest) (X : string) (newComment : Comment)
    (updates : PartialComment) (newLikes : list string) :
  ~ In X (ids F) ->
  addReplyToComment F X newComment = F /\
  updateComment F X updates = F /\
  updateCommentLikes F X newLikes = F /\
  handleDelete F X = F.
Proof.
  intros HX.
  rewrite addReplyToComment_shape, updateComment_shape, updateCommentLikes_shape.
  rewrite !map_match_absent by exact HX.
  repeat split. apply handleDelete_absent, HX.
Qed.

Lemma absent_id_is_noop_witness :
  ~ In "9" (ids chain123) /\
  (addReplyToComment chain123 "9" (node "4" "dee" []) = chain123 /\
   updateComment chain123 "9" (patch_text "b") = chain123 /\
   updateCommentLikes chain123 "9" ["ann"] = chain123 /\
   handleDelete chain123 "9" = chain123).
Proof.
  assert (H : ~ In "9" (ids chain123)).
  { simpl. intros [H|[H|[H|[]]]]; discriminate H. }
  split; [exact H|].
  apply (absent_id_is_noop chain123 "9" (node "4" "dee" []) (patch_text "b") ["ann"] H).
Defined.

(** ** Editing the body of one comment (C5) *)

Lemma same_fields_refl c : same_fields_but_text c c.
Proof. unfold same_fields_but_text. repeat split. Qed.

Lemma text_frame_same X b o :
  (forall c, o = Some c -> _id c <> X) -> text_frame X b o o.
Proof.
  intros H. destruct o as [c|]; simpl; [|exact I].
  split; [apply same_fields_refl|].
  destruct (String.eqb_spec (_id c) X) as [E|E]; [|reflexivity].
  destruct (H c eq_refl E).
Qed.

Lemma updateComment_text_cb_fields X b c :
  same_fields_but_text c (map_match_cb (fun d => spread d (patch_text b)) X c) /\
  text (map_match_cb (fun d => spread d (patch_text b)) X c) =
    (if String.eqb (_id c) X then b else text c).
Proof.
  rewrite map_match_cb_eq. destruct (String.eqb (_id c) X).
  - destruct c; unfold same_fields_but_text; simpl. repeat split.
  - destruct c as [i t u ca l [rs|] pc pn e ea];
      unfold same_fields_but_text; simpl; repeat split.
    unfold map_match. rewrite length_map. reflexivity.
Qed.

Lemma updateComment_text_frame X b q : forall F,
  NoDup (ids F) ->
  text_frame X b (node_at F q) (node_at (updateComment F X (patch_text b)) q).
Proof.
  induction q as [|i q IH]; intros F HF; [exact I|].
  rewrite updateComment_shape in *.
  destruct q as [|j q].
  - simpl. rewrite nth_error_map_match.
    destruct (nth_error F i) as [c0|]; simpl; [|exact I].
    apply updateComment_text_cb_fields.
  - rewrite !node_at_below, nth_error_map_match.
    destruct (nth_error F i) as [c0|] eqn:Hi; simpl option_map; cbv iota; [|exact I].
    destruct (NoDup_ids_nth F i c0 HF Hi) as [Hch Hself].
    destruct (String.eqb_spec (_id c0) X) as [E|E].
    + rewrite map_match_cb_eq.
      replace (String.eqb (_id c0) X) with true by (symmetry; apply String.eqb_eq, E).
      replace (children (spread c0 (patch_text b))) with (children c0)
        by (destruct c0; reflexivity).
      apply text_frame_same. intros c Hc Hid. apply Hself.
      rewrite E, <- Hid. eapply node_at_in_ids; eauto.
    + rewrite children_map_match_cb by (apply String.eqb_neq; exact E).
      rewrite <- updateComment_shape. apply IH, Hch.
Qed.

(** C5. In a forest with unique ids that holds a node of id [X], editing
    the body of [X] through [updateComment] rewrites the text of the one
    node that carries [X] and nothing else: the result is the forest with
    that node's text replaced, and at every position the same node is found
    as before, with all its other fields and as many children. *)
Theorem updateComment_text_only (F : Forest) (X b : string) :
  NoDup (ids F) -> In X (ids F) ->
  exists p c,
    node_at F p = Some c /\ _id c = X /\
    updateComment F X (patch_text b) = modify_at (fun d => with_text d b) p F /\
    node_at (updateComment F X (patch_text b)) p = Some (with_text c b) /\
    forall q, text_frame X b (node_at F q)
                (node_at (updateComment F X (patch_text b)) q).
Proof.
  intros HF HX. destruct (in_ids_node_at F X HX) as (p & c & Hp & Hid).
  exists p, c. split; [exact Hp|]. split; [exact Hid|].
  assert (E : updateComment F X (patch_text b) = modify_at (fun d => with_text d b) p F).
  { rewrite updateComment_shape.
    rewrite (map_match_ext _ (fun d => with_text d b) X F (fun d => spread_patch_text d b)).
    apply (map_match_unique _ X p F c HF Hp Hid). }
  split; [exact E|]. split.
  - rewrite E. exact (node_at_modify_at (fun d => with_text d b) p F c Hp).
  - intros q. apply updateComment_text_frame, HF.
Qed.

Lemma updateComment_text_only_witness :
  NoDup (ids chain123) /\ In "2" (ids chain123) /\
  exists p c,
    node_at chain123 p = Some c /\ _id c = "2" /\
    updateComment chain123 "2" (patch_text "b") =
      modify_at (fun d => with_text d "b") p chain123 /\
    node_at (updateComment chain123 "2" (patch_text "b")) p = Some (with_text c "b") /\
    forall q, text_frame "2" "b" (node_at chain123 q)
                (node_at (updateComment chain123 "2" (patch_text "b")) q).
Proof.
  assert (Hin : In "2" (ids chain123)) by (simpl; auto).
  assert (Hnd : NoDup (ids chain123)).
  { unique_ids. }
  split; [exact Hnd|]. split; [exact Hin|].
  apply (updateComment_text_only chain123 "2" "b" Hnd Hin).
Defined.

(** ** Inserting a reply (C7) *)

(** [handleReplySubmit] hands a non-empty [replyingTo] to
    [addReplyToComment]; the empty string is falsy and goes the way of
    [null]. *)
Lemma handleReplySubmit_truthy parentId N F :
  parentId <> EmptyString ->
  handleReplySubmit (Some parentId) N F = addReplyToComment F parentId N.
Proof.
  intros H. apply truthy_true in H. unfold handleReplySubmit. rewrite H. reflexivity.
Qed.

Lemma handleReplySubmit_empty N F :
  handleReplySubmit (Some EmptyString) N F = F ++ [N].
Proof. reflexivity. Qed.



(** ** Several nodes with one id (C3) *)

Lemma push_reply_keeps_children N d i d' :
  nth_error (children d) i = Some d' ->
  nth_error (children (push_reply N d)) i = Some d'.
Proof.
  intros H. unfold push_reply. rewrite children_with_replies.
  rewrite nth_error_app1; [exact H|]. apply nth_error_Some. congruence.
Qed.

Lemma spread_keeps_children u d i d' :
  p_replies u = None ->
  nth_error (children d) i = Some d' ->
  nth_error (children (spread d u)) i = Some d'.
Proof.
  intros Hu H. unfold children, spread in *. simpl. rewrite Hu. exact H.
Qed.

(** C3, as the code has it. Each of [addReplyToComment], [updateComment]
    and [updateCommentLikes] rewrites every node that carries the id and
    lies below no other node carrying it, wherever it stands among its
    siblings; a node that carries the id below such a node is left as it
    was (for [updateComment], when the patch holds no [replies] key). *)
Theorem same_id_nodes_outermost (F : Forest) (X : string) (p : list nat)
    (c newComment : Comment) (updates : PartialComment) (newLikes : list string) :
  node_at F p = Some c -> _id c = X ->
  (~ shadowed X F p ->
     node_at (addReplyToComment F X newComment) p =
       Some (with_replies c (children c ++ [newComment])) /\
     node_at (updateComment F X updates) p = Some (spread c updates) /\
     node_at (updateCommentLikes F X newLikes) p = Some (with_likes c newLikes)) /\
  (shadowed X F p ->
     node_at (addReplyToComment F X newComment) p = Some c /\
     (p_replies updates = None -> node_at (updateComment F X updates) p = Some c) /\
     node_at (updateCommentLikes F X newLikes) p = Some c).
Proof.
  intros Hp Hid.
  rewrite addReplyToComment_shape, updateComment_shape, updateCommentLikes_shape.
  split; intros Hs.
  - repeat split.
    + exact (map_match_outermost (push_reply newComment) X p F c Hp Hid Hs).
    + exact (map_match_outermost (fun d => spread d updates) X p F c Hp Hid Hs).
    + exact (map_match_outermost (fun d => with_likes d newLikes) X p F c Hp Hid Hs).
  - repeat split.
    + apply map_match_shadowed; auto using push_reply_keeps_children.
    + intros Hu. apply map_match_shadowed; auto.
      intros d i d'. apply spread_keeps_children, Hu.
    + apply map_match_shadowed; auto.
Qed.

Lemma same_id_nodes_outermost_witness :
  node_at twins [1] = Some (node "1" "bob" []) /\
  node_at (updateCommentLikes twins "1" ["ann"]) [1] =
    Some (with_likes (node "1" "bob" []) ["ann"]).
Proof.
  split; [reflexivity|].
  apply (same_id_nodes_outermost twins "1" [1] (node "1" "bob" [])
           (node "4" "dee" []) (patch_text "b") ["ann"] eq_refl eq_refl).
  apply not_shadowed_top.
Defined.

(** The second of two top-level comments with one id is rewritten by all
    three operations, although it is not the first in depth-first order. *)
Lemma same_id_first_only_counterexample :
  _id (node "1" "bob" []) = _id (node "1" "ann" []) /\
  nth_error twins 1 = Some (node "1" "bob" []) /\
  nth_error (addReplyToComment twins "1" (node "4" "dee" [])) 1 <> nth_error twins 1 /\
  nth_error (updateComment twins "1" (patch_text "b")) 1 <> nth_error twins 1 /\
  nth_error (updateCommentLikes twins "1" ["ann"]) 1 <> nth_error twins 1.
Proof. repeat split; discriminate. Qed.

(** ** Deleting a comment (C1, C2) *)

(** What the deletion filter does achieve: with unique ids, a top-level
    comment is removed together with its subtree and its siblings stay. *)
Lemma handleDelete_top_level l1 c l2 :
  NoDup (ids (l1 ++ c :: l2)) ->
  handleDelete (l1 ++ c :: l2) (_id c) = l1 ++ l2.
Proof.
  intros H. destruct (NoDup_ids_split _ _ _ H) as (_ & _ & Hout).
  destruct (Hout (_id c)) as [H1 H2]; [apply in_ids_node; auto|].
  unfold handleDelete. rewrite filter_app. simpl. rewrite String.eqb_refl. simpl.
  fold (handleDelete l1 (_id c)) (handleDelete l2 (_id c)).
  rewrite !handleDelete_absent by assumption. reflexivity.
Qed.

(** C1. On the reply chain 1 -> 2 -> 3 the deletion filter, asked to delete
    comment 2, drops the top-level comment 1 with all that is below it,
    where the specification keeps comment 1 without children; asked to
    delete comment 3, it returns the forest as it was. *)
Theorem handleDelete_reply_drops_parent :
  handleDelete chain123 "2" = [] /\
  handleDelete chain123 "2" <> [node "1" "ann" []] /\
  handleDelete chain123 "3" = chain123.
Proof. repeat split. discriminate. Qed.

Lemma addReplyToComment_cb_holds_new X N c :
  In X (ids_node c) -> In (_id N) (ids_node (addReplyToComment_cb X N c)).
Proof.
  induction c as [c IH] using Comment_children_ind. intros HX.
  assert (E : addReplyToComment_cb X N c = map_match_cb (push_reply N) X c).
  { pose proof (addReplyToComment_shape [c] X N) as E. injection E as E. exact E. }
  rewrite E, map_match_cb_eq.
  destruct (String.eqb_spec (_id c) X) as [Hid|Hid].
  - apply in_ids_node. right. unfold push_reply. rewrite children_with_replies.
    rewrite ids_app. apply in_or_app. right. rewrite ids_cons. left. reflexivity.
  - apply in_ids_node in HX. destruct HX as [HX|HX]; [congruence|].
    unfold children in *. destruct (replies c) as [rs|]; [|destruct HX].
    apply in_ids_node. right. rewrite children_with_replies.
    apply in_ids in HX. destruct HX as (d & Hd & HX).
    rewrite Forall_forall in IH. apply in_ids.
    exists (addReplyToComment_cb X N d). split.
    + rewrite <- addReplyToComment_shape. apply in_map, Hd.
    + apply IH; assumption.
Qed.

(** C2. Whenever the parent is in the forest and the id of the new
    comment is not, deleting the new comment after inserting it never gives
    the original forest back: either the filter drops a top-level comment,
    or it drops nothing and the new comment is still there. *)
Theorem insert_then_delete_not_inverse (F : Forest) (parentId : string)
    (newComment : Comment) :
  In parentId (ids F) -> ~ In (_id newComment) (ids F) ->
  handleDelete (addReplyToComment F parentId newComment) (_id newComment) <> F.
Proof.
  intros Hp Hn E.
  assert (Hlen : List.length (addReplyToComment F parentId newComment) = List.length F).
  { unfold addReplyToComment. apply length_map. }
  unfold handleDelete in E.
  match type of E with filter ?f ?G = _ =>
    assert (Hall : forallb f G = true)
      by (apply filter_length_forallb; rewrite E; symmetry; exact Hlen);
    rewrite (forallb_filter_id f G Hall) in E
  end.
  apply Hn. rewrite <- E.
  apply in_ids in Hp. destruct Hp as (c & Hc & Hp).
  apply in_ids. exists (addReplyToComment_cb parentId newComment c).
  split; [apply in_map, Hc|]. apply addReplyToComment_cb_holds_new, Hp.
Qed.

Lemma insert_then_delete_not_inverse_witness :
  In "1" (ids [node "1" "ann" []]) /\
  ~ In (_id (node "2" "bob" [])) (ids [node "1" "ann" []]) /\
  handleDelete (addReplyToComment [node "1" "ann" []] "1" (node "2" "bob" [])) "2" = [] /\
  handleDelete (addReplyToComment [node "1" "ann" []] "1" (node "2" "bob" []))
    (_id (node "2" "bob" [])) <> [node "1" "ann" []].
Proof.
  assert (Hp : In "1" (ids [node "1" "ann" []])) by (simpl; auto).
  assert (Hn : ~ In (_id (node "2" "bob" [])) (ids [node "1" "ann" []])).
  { simpl. intros [H|[]]. discriminate H. }
  split; [exact Hp|]. split; [exact Hn|]. split; [reflexivity|].
  apply (insert_then_delete_not_inverse [node "1" "ann" []] "1" (node "2" "bob" []) Hp Hn).
Defined.

(** ** Looking up the author of a comment (C8) *)

Lemma for_of_none {A R : Type} (body : A -> option R) l :
  Forall (fun a => body a = None) l -> for_of body l = None.
Proof. induction 1 as [|a l Ha _ IH]; simpl; [|rewrite Ha]; auto. Qed.

Lemma for_of_skip {A R : Type} (body : A -> option R) l1 l2 :
  Forall (fun a => body a = None) l1 -> for_of body (l1 ++ l2) = for_of body l2.
Proof. induction 1 as [|a l Ha _ IH]; simpl; [|rewrite Ha]; auto. Qed.

Lemma findParentUsername_body_eq parentId c :
  findParentUsername_body parentId c =
  if strict_eq_opt (_id c) parentId then Some (User.username (user c))
  else match replies c with
       | Some rs =>
           let found := findParentUsername rs parentId in
           if truthy_opt found then found else None
       | None => None
       end.
Proof. destruct c; reflexivity. Qed.

Lemma findParentUsername_body_absent X c :
  ~ In X (ids_node c) -> findParentUsername_body (Some X) c = None.
Proof.
  induction c as [c IH] using Comment_children_ind. intros HX.
  rewrite in_ids_node in HX. rewrite findParentUsername_body_eq. simpl.
  destruct (String.eqb_spec (_id c) X) as [E|_]; [exfalso; auto|].
  unfold children in *. destruct (replies c) as [rs|]; [|reflexivity].
  unfold findParentUsername. simpl.
  replace (for_of (findParentUsername_body (Some X)) rs) with (@None string).
  - destruct (truthy X); reflexivity.
  - symmetry. apply for_of_none. rewrite Forall_forall in *.
    intros d Hd. apply IH; [exact Hd|]. intros Hin. apply HX. right.
    apply in_ids. eauto.
Qed.

Lemma findParentUsername_skip X F :
  ~ In X (ids F) -> Forall (fun c => findParentUsername_body (Some X) c = None) F.
Proof.
  intros HX. apply Forall_forall. intros c Hc.
  apply findParentUsername_body_absent. intros Hin. apply HX, in_ids. eauto.
Qed.

Lemma findParentUsername_present X p : forall F c,
  NoDup (ids F) -> truthy X = true -> node_at F p = Some c -> _id c = X ->
  truthy (User.username (user c)) = true ->
  findParentUsername F (Some X) = Some (User.username (user c)).
Proof.
  induction p as [|i p IH]; intros F c HF HXt Hp Hid Hu; [discriminate|].
  simpl in Hp. destruct (nth_error F i) as [c0|] eqn:Hi; [|discriminate].
  destruct (nth_error_split _ _ Hi) as (l1 & l2 & -> & _).
  destruct (NoDup_ids_split _ _ _ HF) as (Hch & Hself & Hout).
  assert (Hin : In X (ids_node c0)).
  { apply in_ids_node. destruct p; [left; congruence|].
    right. rewrite <- Hid. eapply node_at_in_ids; eauto. }
  destruct (Hout X Hin) as [H1 _].
  unfold findParentUsername. simpl truthy_opt. rewrite HXt. simpl negb. cbv iota.
  rewrite for_of_skip by (apply findParentUsername_skip, H1).
  simpl for_of. rewrite findParentUsername_body_eq. simpl strict_eq_opt.
  destruct p as [|j p].
  - injection Hp as ->. rewrite Hid, String.eqb_refl. reflexivity.
  - assert (Hne : String.eqb (_id c0) X = false).
    { apply String.eqb_neq. intros E. apply Hself. rewrite E, <- Hid.
      eapply node_at_in_ids; eauto. }
    rewrite Hne. unfold children in *. destruct (replies c0) as [rs|].
    + rewrite (IH rs c Hch HXt Hp Hid Hu). simpl. rewrite Hu. reflexivity.
    + rewrite node_at_nil_forest in Hp. discriminate.
Qed.

(** C8, as the code has it. In a forest with unique ids, for a non-empty
    id, [findParentUsername] returns the username of the author of the node
    that carries the id, at whatever depth it lies, when that username is
    not empty; it returns null when no node carries the id, and when the
    id is null or empty. *)
Theorem findParentUsername_finds (F : Forest) (nodeId : string) :
  NoDup (ids F) ->
  (forall p c,
     nodeId <> EmptyString ->
     node_at F p = Some c -> _id c = nodeId ->
     User.username (user c) <> EmptyString ->
     findParentUsername F (Some nodeId) = Some (User.username (user c))) /\
  (~ In nodeId (ids F) -> findParentUsername F (Some nodeId) = None) /\
  findParentUsername F None = None /\
  findParentUsername F (Some EmptyString) = None.
Proof.
  intros HF. repeat split.
  - intros p c Hn Hp Hid Hu. apply truthy_true in Hn, Hu.
    exact (findParentUsername_present nodeId p F c HF Hn Hp Hid Hu).
  - intros HX. unfold findParentUsername.
    destruct (negb (truthy_opt (Some nodeId))); [reflexivity|].
    apply for_of_none, findParentUsername_skip, HX.
Qed.

Lemma findParentUsername_finds_witness :
  NoDup (ids chain123) /\
  findParentUsername chain123 (Some "3") = Some "cy" /\
  findParentUsername chain123 (Some "9") = None.
Proof.
  assert (Hnd : NoDup (ids chain123)).
  { unique_ids. }
  destruct (findParentUsername_finds chain123 "3" Hnd) as (Hfound & _).
  destruct (findParentUsername_finds chain123 "9" Hnd) as (_ & Habsent & _).
  split; [exact Hnd|]. split.
  - apply (Hfound [0; 0; 0] (node "3" "cy" [])); try reflexivity; discriminate.
  - apply Habsent. simpl. intuition discriminate.
Defined.

(** A node whose id is the empty string is never found, and neither is a
    reply whose author has an empty username. *)
Lemma findParentUsername_counterexample :
  (NoDup (ids [node EmptyString "ann" []]) /\
   node_at [node EmptyString "ann" []] [0] = Some (node EmptyString "ann" []) /\
   findParentUsername [node EmptyString "ann" []] (Some EmptyString) = None /\
   findParentUsername [node EmptyString "ann" []] (Some EmptyString) <> Some "ann") /\
  (NoDup (ids [node "1" "ann" [node "2" EmptyString []]]) /\
   node_at [node "1" "ann" [node "2" EmptyString []]] [0; 0] =
     Some (node "2" EmptyString []) /\
   findParentUsername [node "1" "ann" [node "2" EmptyString []]] (Some "2") = None /\
   findParentUsername [node "1" "ann" [node "2" EmptyString []]] (Some "2") <>
     Some (User.username (user (node "2" EmptyString [])))).
Proof.
  repeat split; try discriminate;
    simpl; repeat constructor; simpl; intuition discriminate.
Qed.

(** ** The length of the comment text (C10) *)

Lemma trimStart_length s : List.length (trimStart s) <= List.length s.
Proof.
  induction s as [|u s IH]; simpl; [lia|].
  destruct (is_white_space u); simpl; lia.
Qed.

Lemma trim_length s : List.length (trim s) <= List.length s.
Proof.
  unfold trim, trimEnd. rewrite length_rev.
  etransitivity; [apply trimStart_length|]. rewrite length_rev.
  apply trimStart_length.
Qed.

Lemma slice0_length s n : List.length (slice0 s n) <= n.
Proof. apply firstn_le_length. Qed.

(** In comment-input.tsx the text is stored by [onChange] alone, and
    neither the stored text nor a request sent ever exceeds [maxLength]. *)
Lemma CommentInput_step_bounded parent s e :
  List.length (CommentInput.commentText s) <= CommentInput.maxLength ->
  List.length (CommentInput.commentText (fst (CommentInput.step parent s e)))
    <= CommentInput.maxLength /\
  forall r, snd (CommentInput.step parent s e) = Some r ->
            List.length (req_text r) <= CommentInput.maxLength.
Proof.
  intros Hs. destruct e as [value|token outcome];
    cbn [CommentInput.step CommentInput.onChange fst snd CommentInput.commentText].
  - split; [apply slice0_length|discriminate].
  - unfold CommentInput.handleSubmit.
    destruct (negb (truthy_opt token)); [split; [exact Hs|discriminate]|].
    destruct (negb (truthy_js (trim (CommentInput.commentText s))));
      [split; [exact Hs|discriminate]|].
    pose proof (trim_length (CommentInput.commentText s)) as Ht.
    unfold CommentInput.maxLength in *.
    destruct outcome; cbn [fst snd CommentInput.commentText List.length];
      (split; [lia|]); intros r [= <-]; cbn [req_text]; lia.
Qed.

Lemma CommentInput_run_bounded parent es : forall s,
  List.length (CommentInput.commentText s) <= CommentInput.maxLength ->
  List.length (CommentInput.commentText (fst (CommentInput.run parent s es)))
    <= CommentInput.maxLength /\
  Forall (fun r => List.length (req_text r) <= CommentInput.maxLength)
         (snd (CommentInput.run parent s es)).
Proof.
  induction es as [|e es IH]; intros s Hs; cbn [CommentInput.run];
    [split; [exact Hs|constructor]|].
  destruct (CommentInput_step_bounded parent s e Hs) as [H1 H2].
  destruct (CommentInput.step parent s e) as [s1 sent]. cbn [fst snd] in H1, H2.
  destruct (IH s1 H1) as [H3 H4].
  destruct (CommentInput.run parent s1 es) as [s2 rest]. cbn [fst snd] in *.
  split; [exact H3|]. destruct sent as [r|]; [constructor; auto|exact H4].
Qed.

(** C10. In the input of comment-list.tsx the emoji handler stores the
    text without cutting it: after five hundred characters are typed and
    one emoji is picked, the stored text is 502 code units long, and the
    comment sent has a body of 502 code units, above [maxLength]. *)
Theorem emoji_click_exceeds_maxLength :
  List.length
    (CommentListInput.commentText
       (CommentListInput.handleEmojiClick CommentListInput.smiley
          (CommentListInput.onChange (repeat 97%N 500) CommentListInput.initial)))
    = 502 /\
  map (fun r => List.length (req_text r))
      (snd (CommentListInput.run None CommentListInput.initial
              CommentListInput.overlong)) = [502] /\
  CommentListInput.maxLength < 502.
Proof.
  split; [vm_compute; reflexivity|]. split; [vm_compute; reflexivity|].
  unfold CommentListInput.maxLength. lia.
Qed.

(** ** Thrown values in the blog-detail fetch *)

Lemma is_abort_name e :
  BlogDetailPage.is_abort e = true <->
  exists m, e = BlogDetailPage.ErrorObject "AbortError" m.
Proof.
  destruct e as [name m|]; simpl.
  - rewrite String.eqb_eq. split.
    + intros ->. eauto.
    + intros (m' & E). congruence.
  - split; [discriminate|]. intros (m & E). discriminate.
Qed.

(** The [try] block throws an abort error only when the fetch itself was
    rejected with one. *)
Lemma try_block_abort settled e :
  BlogDetailPage.try_block settled = inr e ->
  BlogDetailPage.is_abort e = true ->
  settled = BlogDetailPage.Rejected e.
Proof.
  destruct settled as [r|e0]; simpl; [|congruence].
  destruct (negb (BlogDetailPage.ok r)); [intros [= <-]; discriminate|].
  destruct (negb (BlogDetailPage.contentTypeIsJson r)); [intros [= <-]; discriminate|].
  destruct (BlogDetailPage.json r) as [data|[|]]; try (intros [= <-]; discriminate).
  destruct (BlogDetailPage.blog data); [destruct (BlogDetailPage.success data)|];
    try discriminate; intros [= <-]; discriminate.
Qed.

(** * Further properties of the comment list *)

(** ** What likes and edits leave alone *)

Lemma flat_map_ext_Forall {A B : Type} (f g : A -> list B) (l : list A) :
  Forall (fun a => f a = g a) l -> flat_map f l = flat_map g l.
Proof. induction 1 as [|a l Ha _ IH]; simpl; [|rewrite Ha, IH]; reflexivity. Qed.

Lemma ids_map F (f : Comment -> Comment) :
  Forall (fun c => ids_node (f c) = ids_node c) F -> ids (map f F) = ids F.
Proof.
  intros H. unfold ids. rewrite flat_map_concat_map, map_map, <- flat_map_concat_map.
  apply flat_map_ext_Forall, H.
Qed.

(** A rewriting of the matching nodes that keeps their id and their
    replies keeps the ids of the forest, in their order. *)
Lemma map_match_ids h X F :
  (forall c, _id (h c) = _id c /\ replies (h c) = replies c) ->
  ids (map_match h X F) = ids F.
Proof.
  intros Hh. unfold map_match. apply ids_map.
  apply Forest_children_ind. intros c IH. rewrite map_match_cb_eq.
  destruct (String.eqb (_id c) X).
  - destruct (Hh c) as [Hi Hr]. rewrite !ids_node_children. unfold children.
    rewrite Hi, Hr. reflexivity.
  - unfold children in IH. destruct (replies c) as [rs|] eqn:R; [|reflexivity].
    rewrite !ids_node_children, children_with_replies. unfold children. rewrite R.
    f_equal. apply ids_map, IH.
Qed.

Lemma spread_keeps_id_replies u c :
  p_id u = None -> p_replies u = None ->
  _id (spread c u) = _id c /\ replies (spread c u) = replies c.
Proof. intros Hi Hr. unfold spread; simpl. rewrite Hi, Hr. auto. Qed.

(** X1. A like update, and an update whose patch holds neither an id nor
    replies (such as the one of [handleEdit]), keep every comment where it
    is: the ids of the forest, in depth-first order, are the same. *)
Theorem likes_and_edits_keep_ids (F : Forest) (X : string)
    (newLikes : list string) (updates : PartialComment) :
  p_id updates = None -> p_replies updates = None ->
  ids (updateCommentLikes F X newLikes) = ids F /\
  ids (updateComment F X updates) = ids F.
Proof.
  intros Hi Hr. rewrite updateCommentLikes_shape, updateComment_shape. split.
  - apply map_match_ids. intros c. split; reflexivity.
  - apply map_match_ids. intros c. apply spread_keeps_id_replies; assumption.
Qed.

Lemma likes_and_edits_keep_ids_witness :
  ids (updateCommentLikes chain123 "2" ["ann"]) = ids chain123 /\
  ids (updateComment chain123 "2" (handleEdit_updates "b" "now")) = ids chain123.
Proof.
  apply (likes_and_edits_keep_ids chain123 "2" ["ann"]
           (handleEdit_updates "b" "now") eq_refl eq_refl).
Defined.

Lemma for_of_map_ext {A R : Type} (body : A -> option R) (f : A -> A) l :
  Forall (fun a => body (f a) = body a) l ->
  for_of body (map f l) = for_of body l.
Proof. induction 1 as [|a l Ha _ IH]; simpl; [|rewrite Ha, IH]; reflexivity. Qed.

Lemma map_match_findParentUsername h X F parentId :
  (forall c, _id (h c) = _id c /\ user (h c) = user c /\ replies (h c) = replies c) ->
  findParentUsername (map_match h X F) parentId = findParentUsername F parentId.
Proof.
  intros Hh. unfold findParentUsername.
  destruct (negb (truthy_opt parentId)); [reflexivity|].
  unfold map_match. apply for_of_map_ext.
  apply Forest_children_ind. intros c IH.
  rewrite map_match_cb_eq. destruct (String.eqb (_id c) X).
  - destruct (Hh c) as (Hi & Hu & Hr).
    rewrite !findParentUsername_body_eq, Hi, Hu, Hr. reflexivity.
  - unfold children in IH. destruct (replies c) as [rs|] eqn:R; [|reflexivity].
    rewrite !findParentUsername_body_eq. simpl. rewrite R.
    destruct (strict_eq_opt (_id c) parentId); [reflexivity|].
    unfold findParentUsername. destruct (negb (truthy_opt parentId)); [reflexivity|].
    unfold map_match. rewrite (for_of_map_ext _ _ rs IH). reflexivity.
Qed.

(** X2. Liking a comment, or editing it as [handleEdit] does (a patch
    without id, user and replies), changes no "replying to" label:
    [findParentUsername] answers as before for every id. *)
Theorem likes_and_edits_keep_labels (F : Forest) (X : string)
    (newLikes : list string) (updates : PartialComment) (parentId : option string) :
  p_id updates = None -> p_user updates = None -> p_replies updates = None ->
  findParentUsername (updateCommentLikes F X newLikes) parentId
    = findParentUsername F parentId /\
  findParentUsername (updateComment F X updates) parentId
    = findParentUsername F parentId.
Proof.
  intros Hi Hu Hr. rewrite updateCommentLikes_shape, updateComment_shape. split.
  - apply map_match_findParentUsername. intros c. repeat split.
  - apply map_match_findParentUsername. intros c.
    unfold spread; simpl. rewrite Hi, Hu, Hr. auto.
Qed.

Lemma likes_and_edits_keep_labels_witness :
  findParentUsername (updateCommentLikes chain123 "2" ["ann"]) (Some "2")
    = findParentUsername chain123 (Some "2") /\
  findParentUsername (updateComment chain123 "2" (handleEdit_updates "b" "now")) (Some "2")
    = findParentUsername chain123 (Some "2").
Proof.
  apply (likes_and_edits_keep_labels chain123 "2" ["ann"]
           (handleEdit_updates "b" "now") (Some "2") eq_refl eq_refl eq_refl).
Defined.

(** ** How updates compose *)

Lemma map_match_compose h1 h2 X F :
  (forall c, _id (h1 c) = _id c) ->
  map_match h2 X (map_match h1 X F) = map_match (fun c => h2 (h1 c)) X F.
Proof.
  intros H1. unfold map_match. rewrite map_map. apply map_ext_Forall.
  apply Forest_children_ind. intros c IH.
  rewrite (map_match_cb_eq h1), (map_match_cb_eq (fun c => h2 (h1 c))).
  destruct (String.eqb (_id c) X) eqn:E.
  - rewrite map_match_cb_eq, H1, E. reflexivity.
  - unfold children in IH. destruct (replies c) as [rs|] eqn:R.
    + rewrite map_match_cb_eq. simpl. rewrite E. unfold with_replies; simpl.
      do 2 f_equal. unfold map_match. rewrite map_map. apply map_ext_Forall, IH.
    + rewrite map_match_cb_eq, E, R. reflexivity.
Qed.

(** X3. Of two like updates of one comment the second wins: the result is
    that of the second alone.  In particular a like update applied twice is
    the same as applied once. *)
Theorem updateCommentLikes_last_wins (F : Forest) (X : string)
    (likes1 likes2 : list string) :
  updateCommentLikes (updateCommentLikes F X likes1) X likes2
    = updateCommentLikes F X likes2.
Proof.
  rewrite !updateCommentLikes_shape.
  rewrite map_match_compose by reflexivity.
  apply map_match_ext. intros c. reflexivity.
Qed.

Lemma override_twice {A : Type} (a : A) x y :
  override (override a x) y = override a (override_opt x y).
Proof. destruct x, y; reflexivity. Qed.

Lemma override_opt_twice {A : Type} (a : option A) x y :
  override_opt (override_opt a x) y = override_opt a (override_opt x y).
Proof. destruct x, y; reflexivity. Qed.

Lemma override_opt_same {A : Type} (x : option A) : override_opt x x = x.
Proof. destruct x; reflexivity. Qed.

Lemma spread_spread c u1 u2 :
  spread (spread c u1) u2 = spread c (merge_updates u1 u2).
Proof.
  unfold spread, merge_updates; simpl.
  rewrite !override_twice, !override_opt_twice. reflexivity.
Qed.

Lemma merge_updates_same u : merge_updates u u = u.
Proof.
  destruct u. unfold merge_updates; simpl. rewrite !override_opt_same. reflexivity.
Qed.

(** X4. Two updates of one comment, the first of which leaves the id
    alone, amount to one update with the merged patch, in which the second
    patch wins on the keys both hold; so an update applied twice is the
    same as applied once. *)
Theorem updateComment_twice (F : Forest) (X : string) (u1 u2 : PartialComment) :
  p_id u1 = None ->
  updateComment (updateComment F X u1) X u2 = updateComment F X (merge_updates u1 u2) /\
  updateComment (updateComment F X u1) X u1 = updateComment F X u1.
Proof.
  intros Hi.
  assert (H : forall u, updateComment (updateComment F X u1) X u
                        = updateComment F X (merge_updates u1 u)).
  { intros u. rewrite !updateComment_shape. rewrite map_match_compose.
    - apply map_match_ext. intros c. apply spread_spread.
    - intros c. unfold spread; simpl. rewrite Hi. reflexivity. }
  split; [apply H|]. rewrite H, merge_updates_same. reflexivity.
Qed.

Lemma updateComment_twice_witness :
  updateComment (updateComment chain123 "2" (patch_text "a")) "2" (patch_likes ["ann"])
    = updateComment chain123 "2" (merge_updates (patch_text "a") (patch_likes ["ann"])) /\
  updateComment (updateComment chain123 "2" (patch_text "a")) "2" (patch_text "a")
    = updateComment chain123 "2" (patch_text "a").
Proof.
  apply (updateComment_twice chain123 "2" (patch_text "a") (patch_likes ["ann"]) eq_refl).
Defined.

Lemma with_replies_twice c rs rs' :
  with_replies (with_replies c rs) rs' = with_replies c rs'.
Proof. reflexivity. Qed.

(** Rewritings of the nodes of two different ids can be done in either
    order, when each keeps the id and the replies of the node it rewrites
    and does to a node with other replies what it does to the node. *)
Lemma map_match_commute h1 h2 X Y F :
  X <> Y ->
  (forall c, _id (h1 c) = _id c /\ replies (h1 c) = replies c) ->
  (forall c, _id (h2 c) = _id c /\ replies (h2 c) = replies c) ->
  (forall c rs, h1 (with_replies c rs) = with_replies (h1 c) rs) ->
  (forall c rs, h2 (with_replies c rs) = with_replies (h2 c) rs) ->
  map_match h2 Y (map_match h1 X F) = map_match h1 X (map_match h2 Y F).
Proof.
  intros Hne H1 H2 W1 W2. unfold map_match. rewrite !map_map.
  apply map_ext_Forall. apply Forest_children_ind. intros c IH.
  assert (IH' : map (map_match_cb h2 Y) (map (map_match_cb h1 X) (children c))
                = map (map_match_cb h1 X) (map (map_match_cb h2 Y) (children c))).
  { rewrite !map_map. apply map_ext_Forall, IH. }
  clear IH. unfold children in IH'.
  rewrite (map_match_cb_eq h1 X c), (map_match_cb_eq h2 Y c).
  destruct (String.eqb_spec (_id c) X) as [EX|EX];
    destruct (String.eqb_spec (_id c) Y) as [EY|EY]; [congruence| | |].
  - (* the node carries X *)
    destruct (H1 c) as [Hi Hr]. rewrite map_match_cb_eq, Hi, Hr.
    replace (String.eqb (_id c) Y) with false by (symmetry; apply String.eqb_neq, EY).
    destruct (replies c) as [rs|] eqn:R.
    + rewrite map_match_cb_eq. simpl _id.
      replace (String.eqb (_id c) X) with true by (symmetry; apply String.eqb_eq, EX).
      rewrite W1. reflexivity.
    + rewrite map_match_cb_eq.
      replace (String.eqb (_id c) X) with true by (symmetry; apply String.eqb_eq, EX).
      reflexivity.
  - (* the node carries Y *)
    destruct (H2 c) as [Hi Hr]. rewrite (map_match_cb_eq h1 X (h2 c)), Hi, Hr.
    replace (String.eqb (_id c) X) with false by (symmetry; apply String.eqb_neq, EX).
    destruct (replies c) as [rs|] eqn:R.
    + rewrite map_match_cb_eq. simpl _id.
      replace (String.eqb (_id c) Y) with true by (symmetry; apply String.eqb_eq, EY).
      rewrite W2. reflexivity.
    + rewrite map_match_cb_eq.
      replace (String.eqb (_id c) Y) with true by (symmetry; apply String.eqb_eq, EY).
      reflexivity.
  - (* the node carries neither *)
    destruct (replies c) as [rs|] eqn:R.
    + rewrite !map_match_cb_eq. simpl.
      replace (String.eqb (_id c) X) with false by (symmetry; apply String.eqb_neq, EX).
      replace (String.eqb (_id c) Y) with false by (symmetry; apply String.eqb_neq, EY).
      rewrite !with_replies_twice. f_equal. exact IH'.
    + rewrite !map_match_cb_eq, R.
      replace (String.eqb (_id c) X) with false by (symmetry; apply String.eqb_neq, EX).
      replace (String.eqb (_id c) Y) with false by (symmetry; apply String.eqb_neq, EY).
      reflexivity.
Qed.

(** X5. Updates of two comments with different ids can be applied in
    either order: two like updates, and a like update with an edit whose
    patch holds neither id nor replies. *)
Theorem updates_of_two_comments_commute (F : Forest) (X Y : string)
    (likesX likesY : list string) (updates : PartialComment) :
  X <> Y -> p_id updates = None -> p_replies updates = None ->
  updateCommentLikes (updateCommentLikes F X likesX) Y likesY
    = updateCommentLikes (updateCommentLikes F Y likesY) X likesX /\
  updateComment (updateCommentLikes F X likesX) Y updates
    = updateCommentLikes (updateComment F Y updates) X likesX.
Proof.
  intros Hne Hi Hr.
  rewrite !updateCommentLikes_shape, !updateComment_shape.
  split; apply map_match_commute; auto;
    try (intros c; split; reflexivity);
    try (intros c rs; reflexivity);
    try (intros c; apply spread_keeps_id_replies; assumption).
  intros c rs. unfold spread, with_replies; simpl. rewrite Hr. reflexivity.
Qed.

Lemma updates_of_two_comments_commute_witness :
  updateCommentLikes (updateCommentLikes chain123 "1" ["bob"]) "3" ["ann"]
    = updateCommentLikes (updateCommentLikes chain123 "3" ["ann"]) "1" ["bob"] /\
  updateComment (updateCommentLikes chain123 "1" ["bob"]) "3" (handleEdit_updates "b" "now")
    = updateCommentLikes (updateComment chain123 "3" (handleEdit_updates "b" "now")) "1" ["bob"].
Proof.
  apply (updates_of_two_comments_commute chain123 "1" "3" ["bob"] ["ann"]
           (handleEdit_updates "b" "now")); [discriminate|reflexivity|reflexivity].
Defined.

(** ** Replies *)

Lemma addReplyToComment_cb_eq X N c :
  addReplyToComment_cb X N c = map_match_cb (push_reply N) X c.
Proof.
  pose proof (addReplyToComment_shape [c] X N) as E. injection E as E. exact E.
Qed.

Lemma addReplyToComment_cb_ids X N c y :
  In y (ids_node (addReplyToComment_cb X N c)) <->
  In y (ids_node c) \/ (In X (ids_node c) /\ In y (ids_node N)).
Proof.
  induction c as [c IH] using Comment_children_ind.
  rewrite addReplyToComment_cb_eq, map_match_cb_eq.
  destruct (String.eqb_spec (_id c) X) as [E|E].
  - unfold push_reply.
    rewrite (in_ids_node (with_replies c (children c ++ [N])) y).
    rewrite (in_ids_node c y), (in_ids_node c X).
    rewrite children_with_replies, ids_app, in_app_iff.
    change (ids [N]) with (ids_node N ++ []). rewrite app_nil_r.
    assert (HX : X = _id c) by auto. simpl _id. tauto.
  - unfold children in IH. rewrite (in_ids_node c X).
    destruct (replies c) as [rs|] eqn:R.
    + rewrite (in_ids_node (with_replies c (map_match (push_reply N) X rs)) y).
      rewrite (in_ids_node c y), children_with_replies. unfold children. rewrite R.
      rewrite <- addReplyToComment_shape.
      unfold addReplyToComment. rewrite !in_ids. rewrite Forall_forall in IH.
      simpl _id. split.
      * intros [H|(d' & Hd' & Hy)]; [auto|].
        apply in_map_iff in Hd'. destruct Hd' as (d & <- & Hd).
        apply IH in Hy; [|exact Hd]. destruct Hy as [Hy|[HX Hy]].
        -- left. right. eauto.
        -- right. split; [right; eauto|exact Hy].
      * intros [[H|(d & Hd & Hy)]|[[HX|(d & Hd & HX)] Hy]]; [auto| |congruence|].
        -- right. exists (addReplyToComment_cb X N d). split; [apply in_map, Hd|].
           apply IH; auto.
        -- right. exists (addReplyToComment_cb X N d). split; [apply in_map, Hd|].
           apply IH; auto.
    + unfold children. rewrite R. simpl. intuition congruence.
Qed.

(** X6. [addReplyToComment] keeps the number of top-level comments, and
    the ids of its result are those of the forest together with, when some
    node carries the parent id, those of the new comment: no comment is
    lost, and nothing but the new comment comes in. *)
Theorem addReplyToComment_ids (F : Forest) (parentId : string) (newComment : Comment)
    (y : string) :
  List.length (addReplyToComment F parentId newComment) = List.length F /\
  (In y (ids (addReplyToComment F parentId newComment)) <->
   In y (ids F) \/ (In parentId (ids F) /\ In y (ids_node newComment))).
Proof.
  split; [apply length_map|].
  unfold addReplyToComment. rewrite !in_ids. split.
  - intros (d' & Hd' & Hy). apply in_map_iff in Hd'. destruct Hd' as (d & <- & Hd).
    apply addReplyToComment_cb_ids in Hy. destruct Hy as [Hy|[HX Hy]].
    + left. eauto.
    + right. split; [eauto|exact Hy].
  - intros [(d & Hd & Hy)|[HX Hy]].
    + exists (addReplyToComment_cb parentId newComment d).
      split; [apply in_map, Hd|]. apply addReplyToComment_cb_ids. auto.
    + destruct HX as (d & Hd & HX).
      exists (addReplyToComment_cb parentId newComment d).
      split; [apply in_map, Hd|]. apply addReplyToComment_cb_ids. auto.
Qed.






(** ** Deletion and lookup *)

Lemma handleDelete_In F X c :
  In c (handleDelete F X) <->
  In c F /\ _id c <> X /\ forall r, In r (children c) -> _id r <> X.
Proof.
  unfold handleDelete. rewrite filter_In, andb_true_iff, !negb_true_iff.
  rewrite String.eqb_neq. unfold children.
  destruct (replies c) as [rs|].
  - split.
    + intros (Hc & Hid & Hrs). repeat split; auto.
      intros r Hr E. apply not_true_iff_false in Hrs. apply Hrs.
      apply existsb_exists. exists r. split; [exact Hr|]. apply String.eqb_eq, E.
    + intros (Hc & Hid & Hrs). repeat split; auto.
      apply not_true_iff_false. intros H. apply existsb_exists in H.
      destruct H as (r & Hr & E). apply String.eqb_eq in E. exact (Hrs r Hr E).
  - split; intros (Hc & Hid & _); repeat split; auto; intros r [].
Qed.

Lemma filter_idempotent {A : Type} (f : A -> bool) l :
  filter f (filter f l) = filter f l.
Proof.
  induction l as [|a l IH]; simpl; [reflexivity|].
  destruct (f a) eqn:E; simpl; [rewrite E, IH|]; auto.
Qed.

(** X8. The deletion filter never rebuilds a thread: the comments it
    keeps are top-level comments of the forest, as they were, and exactly
    those that neither carry the id nor have a direct reply carrying it;
    the result is no longer than the forest, and deleting the same id once
    more changes nothing. *)
Theorem handleDelete_survivors (F : Forest) (X : string) :
  (forall c, In c (handleDelete F X) <->
             In c F /\ _id c <> X /\ forall r, In r (children c) -> _id r <> X) /\
  List.length (handleDelete F X) <= List.length F /\
  handleDelete (handleDelete F X) X = handleDelete F X.
Proof.
  split; [intros c; apply handleDelete_In|]. split.
  - apply filter_length_le.
  - apply filter_idempotent.
Qed.

(** X9. With unique ids, deleting a top-level comment removes it with all
    its replies and keeps the comments before and after it, in their
    order. *)
Theorem handleDelete_removes_top_level (l1 : Forest) (c : Comment) (l2 : Forest) :
  NoDup (ids (l1 ++ c :: l2)) ->
  handleDelete (l1 ++ c :: l2) (_id c) = l1 ++ l2 /\
  forall y, In y (ids_node c) -> ~ In y (ids (handleDelete (l1 ++ c :: l2) (_id c))).
Proof.
  intros H. pose proof (handleDelete_top_level l1 c l2 H) as E.
  split; [exact E|]. intros y Hy. rewrite E, ids_app.
  destruct (NoDup_ids_split _ _ _ H) as (_ & _ & Hout).
  destruct (Hout y Hy) as [H1 H2]. intros Hin.
  apply in_app_or in Hin. tauto.
Qed.

Lemma handleDelete_removes_top_level_witness :
  handleDelete ([node "0" "zed" []] ++ node "1" "ann" [node "2" "bob" []] :: [node "5" "eve" []])
    "1" = [node "0" "zed" []] ++ [node "5" "eve" []].
Proof.
  apply (handleDelete_removes_top_level [node "0" "zed" []]
           (node "1" "ann" [node "2" "bob" []]) [node "5" "eve" []]).
  unique_ids.
Defined.

Lemma for_of_some {A R : Type} (body : A -> option R) l r :
  for_of body l = Some r -> exists i a, nth_error l i = Some a /\ body a = Some r.
Proof.
  induction l as [|a l IH]; simpl; [discriminate|].
  destruct (body a) as [r'|] eqn:E.
  - intros [= <-]. exists 0, a. auto.
  - intros H. destruct (IH H) as (i & a' & Hi & Ha). exists (S i), a'. auto.
Qed.

Lemma findParentUsername_body_sound X c u :
  findParentUsername_body (Some X) c = Some u ->
  (_id c = X /\ User.username (user c) = u) \/
  exists p c', node_at (children c) p = Some c' /\ _id c' = X /\
               User.username (user c') = u.
Proof.
  revert u. induction c as [c IH] using Comment_children_ind. intros u.
  rewrite findParentUsername_body_eq. simpl strict_eq_opt.
  destruct (String.eqb_spec (_id c) X) as [E|E].
  - intros [= <-]. left. auto.
  - unfold children in *. destruct (replies c) as [rs|]; [|discriminate].
    cbv zeta. unfold findParentUsername.
    destruct (negb (truthy_opt (Some X))); [discriminate|].
    destruct (for_of (findParentUsername_body (Some X)) rs) as [found|] eqn:Hf;
      [|discriminate].
    simpl. destruct (truthy found); [|discriminate]. intros [= <-].
    destruct (for_of_some _ _ _ Hf) as (i & d & Hi & Hd).
    rewrite Forall_forall in IH.
    destruct (IH d (nth_error_In _ _ Hi) found Hd) as [[Hid Hu]|(p & c' & Hp & Hid & Hu)].
    + right. exists [i], d. simpl. rewrite Hi. auto.
    + right. exists (i :: p), c'. split; [|auto].
      destruct p as [|j p]; [discriminate|]. rewrite node_at_below, Hi. exact Hp.
Qed.

(** X10. [findParentUsername] never invents a name: in any forest, with
    or without repeated ids, a name it returns is the author name of a
    node of the forest that carries the id asked for, and the id asked for
    is not empty. *)
Theorem findParentUsername_sound (F : Forest) (parentId : option string) (u : string) :
  findParentUsername F parentId = Some u ->
  exists X p c,
    parentId = Some X /\ X <> EmptyString /\
    node_at F p = Some c /\ _id c = X /\ User.username (user c) = u.
Proof.
  unfold findParentUsername. destruct parentId as [X|]; [|discriminate].
  simpl truthy_opt. destruct (truthy X) eqn:Ht; [|discriminate]. simpl negb. cbv iota.
  intros Hf. destruct (for_of_some _ _ _ Hf) as (i & d & Hi & Hd).
  exists X. apply truthy_true in Ht.
  destruct (findParentUsername_body_sound X d u Hd) as [[Hid Hu]|(p & c' & Hp & Hid & Hu)].
  - exists [i], d. simpl. rewrite Hi. auto.
  - exists (i :: p), c'. repeat split; auto.
    destruct p as [|j p]; [discriminate|]. rewrite node_at_below, Hi. exact Hp.
Qed.

Lemma findParentUsername_sound_witness :
  exists X p c,
    Some "3" = Some X /\ X <> EmptyString /\
    node_at chain123 p = Some c /\ _id c = X /\ User.username (user c) = "cy".
Proof.
  apply (findParentUsername_sound chain123 (Some "3") "cy" eq_refl).
Defined.

(** * Further properties of the comment inputs *)

Lemma trimStart_head s u :
  hd_error (trimStart s) = Some u -> is_white_space u = false.
Proof.
  induction s as [|v s IH]; simpl; [discriminate|].
  destruct (is_white_space v) eqn:E; [exact IH|].
  simpl. intros [= <-]. exact E.
Qed.

Lemma trimStart_suffix s : exists w, s = w ++ trimStart s.
Proof.
  induction s as [|v s [w IH]]; simpl; [exists []; reflexivity|].
  destruct (is_white_space v).
  - exists (v :: w). simpl. congruence.
  - exists []. reflexivity.
Qed.

Lemma trimEnd_prefix s : exists w, s = trimEnd s ++ w.
Proof.
  unfold trimEnd. destruct (trimStart_suffix (rev s)) as [w E].
  exists (rev w). rewrite <- rev_app_distr, <- E, rev_involutive. reflexivity.
Qed.

Lemma trim_head s u : hd_error (trim s) = Some u -> is_white_space u = false.
Proof.
  unfold trim. destruct (trimEnd_prefix (trimStart s)) as [w E].
  intros H. apply (trimStart_head s). rewrite E.
  destruct (trimEnd (trimStart s)); [discriminate|exact H].
Qed.

Lemma trim_last s u : hd_error (rev (trim s)) = Some u -> is_white_space u = false.
Proof.
  unfold trim, trimEnd. rewrite rev_involutive. apply trimStart_head.
Qed.

Lemma trimStart_blank s :
  Forall (fun u => is_white_space u = true) s -> trimStart s = [].
Proof. induction 1 as [|u s Hu _ IH]; simpl; [|rewrite Hu]; auto. Qed.

Lemma trim_blank s :
  Forall (fun u => is_white_space u = true) s -> trim s = [].
Proof. intros H. unfold trim. rewrite (trimStart_blank s H). reflexivity. Qed.

Lemma truthy_js_true s : truthy_js s = true <-> s <> [].
Proof. destruct s; simpl; split; congruence. Qed.

(** X11. Both comment inputs send a request only when a token is stored
    (and, in the comment list, a user is logged in) and the trimmed text is
    not empty; the text sent is the trimmed text, which neither starts nor
    ends with white space, and the parent is the comment replied to. *)
Theorem handleSubmit_request (token : option string) (user : bool)
    (parent : option string) (outcome : SubmitOutcome)
    (s : CommentInput.State) (s' : CommentListInput.State) (r : CommentRequest) :
  (snd (CommentInput.handleSubmit token parent outcome s) = Some r ->
   truthy_opt token = true /\
   r = mkRequest (trim (CommentInput.commentText s)) parent) /\
  (snd (CommentListInput.handleSubmit token user parent outcome s') = Some r ->
   truthy_opt token = true /\ user = true /\
   r = mkRequest (trim (CommentListInput.commentText s')) parent) /\
  (snd (CommentInput.handleSubmit token parent outcome s) = Some r \/
   snd (CommentListInput.handleSubmit token user parent outcome s') = Some r ->
   req_text r <> [] /\
   (forall u, hd_error (req_text r) = Some u -> is_white_space u = false) /\
   (forall u, hd_error (rev (req_text r)) = Some u -> is_white_space u = false)).
Proof.
  assert (H1 : snd (CommentInput.handleSubmit token parent outcome s) = Some r ->
    truthy_opt token = true /\ r = mkRequest (trim (CommentInput.commentText s)) parent /\
    trim (CommentInput.commentText s) <> []).
  { unfold CommentInput.handleSubmit.
    destruct (truthy_opt token); [|discriminate]. simpl negb. cbv iota.
    destruct (truthy_js (trim (CommentInput.commentText s))) eqn:Et; [|discriminate].
    apply truthy_js_true in Et.
    destruct outcome; simpl; intros [= <-]; auto. }
  assert (H2 : snd (CommentListInput.handleSubmit token user parent outcome s') = Some r ->
    truthy_opt token = true /\ user = true /\
    r = mkRequest (trim (CommentListInput.commentText s')) parent /\
    trim (CommentListInput.commentText s') <> []).
  { unfold CommentListInput.handleSubmit.
    destruct (truthy_opt token); [|discriminate].
    destruct user; [|discriminate]. simpl negb. simpl orb. cbv iota.
    destruct (truthy_js (trim (CommentListInput.commentText s'))) eqn:Et; [|discriminate].
    apply truthy_js_true in Et.
    destruct outcome; simpl; intros [= <-]; auto. }
  split; [intros H; destruct (H1 H) as (? & ? & _); auto|].
  split; [intros H; destruct (H2 H) as (? & ? & ? & _); auto|].
  intros [H|H].
  - destruct (H1 H) as (_ & -> & Hne). simpl.
    split; [exact Hne|]. split; intros u; [apply trim_head|apply trim_last].
  - destruct (H2 H) as (_ & _ & -> & Hne). simpl.
    split; [exact Hne|]. split; intros u; [apply trim_head|apply trim_last].
Qed.

Lemma handleSubmit_request_witness :
  mkRequest [97%N] None = mkRequest (trim [32%N; 97%N; 10%N]) None /\
  req_text (mkRequest [97%N] None) <> [].
Proof.
  destruct (handleSubmit_request (Some "t") true None SubmitOk
              (CommentInput.mkState [32%N; 97%N; 10%N] false EmptyString)
              CommentListInput.initial (mkRequest [97%N] None))
    as (H1 & _ & H3).
  split.
  - apply (H1 eq_refl).
  - apply (H3 (or_introl eq_refl)).
Defined.

(** X12. A comment that is empty or made of white space only is never
    sent: with a token (and a user) present, both inputs keep the text, send
    nothing and set the error to "Comment cannot be empty". *)
Theorem blank_comment_is_rejected (token : option string) (parent : option string)
    (outcome : SubmitOutcome) (s : CommentInput.State) (s' : CommentListInput.State) :
  truthy_opt token = true ->
  (Forall (fun u => is_white_space u = true) (CommentInput.commentText s) ->
   CommentInput.handleSubmit token parent outcome s =
     (CommentInput.mkState (CommentInput.commentText s) (CommentInput.loading s)
        "Comment cannot be empty", None)) /\
  (Forall (fun u => is_white_space u = true) (CommentListInput.commentText s') ->
   CommentListInput.handleSubmit token true parent outcome s' =
     (CommentListInput.mkState (CommentListInput.commentText s')
        (CommentListInput.loading s') "Comment cannot be empty"
        (CommentListInput.showPreview s') (CommentListInput.showEmojiPicker s'), None)).
Proof.
  intros Ht. split; intros Hb.
  - unfold CommentInput.handleSubmit. rewrite Ht, (trim_blank _ Hb). reflexivity.
  - unfold CommentListInput.handleSubmit. rewrite Ht, (trim_blank _ Hb). reflexivity.
Qed.

Lemma blank_comment_is_rejected_witness :
  CommentInput.handleSubmit (Some "t") None SubmitOk
    (CommentInput.mkState [32%N; 10%N] false EmptyString) =
  (CommentInput.mkState [32%N; 10%N] false "Comment cannot be empty", None).
Proof.
  destruct (blank_comment_is_rejected (Some "t") None SubmitOk
              (CommentInput.mkState [32%N; 10%N] false EmptyString)
              CommentListInput.initial eq_refl) as [H _].
  apply H. repeat constructor.
Defined.

(** X13. Once a comment has been sent and accepted the input is empty
    again, and a further submit sends nothing; after a failed request the
    text typed is still there. *)
Theorem submit_clears_text (token : option string) (user : bool)
    (parent : option string) (outcome : SubmitOutcome)
    (s : CommentInput.State) (s' : CommentListInput.State) (r : CommentRequest)
    (message : string) :
  (snd (CommentInput.handleSubmit token parent SubmitOk s) = Some r ->
   CommentInput.commentText (fst (CommentInput.handleSubmit token parent SubmitOk s)) = [] /\
   snd (CommentInput.handleSubmit token parent outcome
          (fst (CommentInput.handleSubmit token parent SubmitOk s))) = None) /\
  (snd (CommentListInput.handleSubmit token user parent SubmitOk s') = Some r ->
   CommentListInput.commentText
     (fst (CommentListInput.handleSubmit token user parent SubmitOk s')) = [] /\
   snd (CommentListInput.handleSubmit token user parent outcome
          (fst (CommentListInput.handleSubmit token user parent SubmitOk s'))) = None) /\
  CommentInput.commentText
    (fst (CommentInput.handleSubmit token parent (SubmitFailed message) s))
    = CommentInput.commentText s /\
  CommentListInput.commentText
    (fst (CommentListInput.handleSubmit token user parent (SubmitFailed message) s'))
    = CommentListInput.commentText s'.
Proof.
  repeat split.
  - revert H. unfold CommentInput.handleSubmit.
    destruct (negb (truthy_opt token)); [discriminate|].
    destruct (negb (truthy_js (trim (CommentInput.commentText s)))); [discriminate|].
    reflexivity.
  - revert H. unfold CommentInput.handleSubmit.
    destruct (negb (truthy_opt token)); [discriminate|].
    destruct (negb (truthy_js (trim (CommentInput.commentText s)))); [discriminate|].
    reflexivity.
  - revert H. unfold CommentListInput.handleSubmit.
    destruct (negb (truthy_opt token) || negb user); [discriminate|].
    destruct (negb (truthy_js (trim (CommentListInput.commentText s')))); [discriminate|].
    reflexivity.
  - revert H. unfold CommentListInput.handleSubmit.
    destruct (negb (truthy_opt token) || negb user); [discriminate|].
    destruct (negb (truthy_js (trim (CommentListInput.commentText s')))); [discriminate|].
    reflexivity.
  - unfold CommentInput.handleSubmit.
    destruct (negb (truthy_opt token)); [reflexivity|].
    destruct (negb (truthy_js (trim (CommentInput.commentText s)))); reflexivity.
  - unfold CommentListInput.handleSubmit.
    destruct (negb (truthy_opt token) || negb user); [reflexivity|].
    destruct (negb (truthy_js (trim (CommentListInput.commentText s')))); reflexivity.
Qed.

Lemma submit_clears_text_witness :
  CommentInput.commentText
    (fst (CommentInput.handleSubmit (Some "t") None SubmitOk
            (CommentInput.mkState [97%N] false EmptyString))) = [] /\
  snd (CommentInput.handleSubmit (Some "t") None SubmitOk
         (fst (CommentInput.handleSubmit (Some "t") None SubmitOk
                 (CommentInput.mkState [97%N] false EmptyString)))) = None.
Proof.
  destruct (submit_clears_text (Some "t") true None SubmitOk
              (CommentInput.mkState [97%N] false EmptyString)
              CommentListInput.initial (mkRequest [97%N] None) EmptyString)
    as (H & _).
  apply H. reflexivity.
Defined.

(** X14. In comment-input.tsx, whatever is typed, pasted or submitted, in
    whatever order, the stored text never has more than [maxLength] code
    units, and neither has the text of any request sent. *)
Theorem CommentInput_text_bounded (parent : option string)
    (es : list CommentInput.Event) (s : CommentInput.State) :
  List.length (CommentInput.commentText s) <= CommentInput.maxLength ->
  List.length (CommentInput.commentText (fst (CommentInput.run parent s es)))
    <= CommentInput.maxLength /\
  Forall (fun r => List.length (req_text r) <= CommentInput.maxLength)
         (snd (CommentInput.run parent s es)).
Proof. apply CommentInput_run_bounded. Qed.

Lemma CommentInput_text_bounded_witness :
  List.length
    (CommentInput.commentText
       (fst (CommentInput.run None CommentInput.initial
               [CommentInput.Change (repeat 97%N 600);
                CommentInput.Submit (Some "t") (SubmitFailed "no")])))
    <= CommentInput.maxLength.
Proof.
  apply (CommentInput_text_bounded None
           [CommentInput.Change (repeat 97%N 600);
            CommentInput.Submit (Some "t") (SubmitFailed "no")]
           CommentInput.initial).
  unfold CommentInput.maxLength. simpl. lia.
Defined.

Lemma CommentListInput_step_bounded parent s e k :
  List.length (CommentListInput.commentText s) <= CommentListInput.maxLength + k ->
  List.length (CommentListInput.commentText (fst (CommentListInput.step parent s e)))
    <= CommentListInput.maxLength + k + emoji_units [e] /\
  forall r, snd (CommentListInput.step parent s e) = Some r ->
            List.length (req_text r) <= CommentListInput.maxLength + k.
Proof.
  intros Hs. unfold CommentListInput.maxLength in *.
  destruct e as [value|emoji| | |token user outcome];
    cbn [CommentListInput.step CommentListInput.onChange
         CommentListInput.handleEmojiClick fst snd
         CommentListInput.commentText emoji_units].
  - pose proof (slice0_length value CommentListInput.maxLength) as H. revert H.
    generalize (List.length (slice0 value CommentListInput.maxLength)).
    unfold CommentListInput.maxLength. intros n H. split; [lia|discriminate].
  - rewrite length_app. split; [lia|discriminate].
  - split; [lia|discriminate].
  - split; [lia|discriminate].
  - unfold CommentListInput.handleSubmit.
    destruct (negb (truthy_opt token) || negb user);
      [cbn [fst snd]; split; [lia|discriminate]|].
    destruct (negb (truthy_js (trim (CommentListInput.commentText s))));
      [cbn [fst snd CommentListInput.commentText]; split; [lia|discriminate]|].
    pose proof (trim_length (CommentListInput.commentText s)) as Ht.
    destruct outcome; cbn [fst snd CommentListInput.commentText List.length];
      (split; [lia|]); intros r [= <-]; cbn [req_text]; lia.
Qed.

(** X15. In the input of comment-list.tsx the stored text, and the text of
    every request sent, exceed [maxLength] by no more than the code units
    of the emojis picked; without an emoji click they stay within
    [maxLength]. *)
Theorem CommentListInput_text_bounded (parent : option string)
    (es : list CommentListInput.Event) (s : CommentListInput.State) (k : nat) :
  List.length (CommentListInput.commentText s) <= CommentListInput.maxLength + k ->
  List.length (CommentListInput.commentText (fst (CommentListInput.run parent s es)))
    <= CommentListInput.maxLength + k + emoji_units es /\
  Forall (fun r => List.length (req_text r)
                   <= CommentListInput.maxLength + k + emoji_units es)
         (snd (CommentListInput.run parent s es)).
Proof.
  revert s k. induction es as [|e es IH]; intros s k Hs; cbn [CommentListInput.run].
  - cbn [fst snd emoji_units]. split; [lia|constructor].
  - destruct (CommentListInput_step_bounded parent s e k Hs) as [H1 H2].
    destruct (CommentListInput.step parent s e) as [s1 sent]. cbn [fst snd] in H1, H2.
    destruct (IH s1 (k + emoji_units [e]) ltac:(lia)) as [H3 H4].
    destruct (CommentListInput.run parent s1 es) as [s2 rest]. cbn [fst snd] in *.
    assert (E : emoji_units (e :: es) = emoji_units [e] + emoji_units es).
    { destruct e; cbn [emoji_units]; lia. }
    rewrite E. split; [lia|].
    assert (H5 : Forall (fun r => List.length (req_text r)
                   <= CommentListInput.maxLength + k + (emoji_units [e] + emoji_units es))
                   rest).
    { eapply Forall_impl; [|exact H4]. cbv beta. intros r Hr. lia. }
    destruct sent as [r|]; [constructor; [|exact H5]|exact H5].
    specialize (H2 r eq_refl). lia.
Qed.

Lemma CommentListInput_text_bounded_witness :
  List.length
    (CommentListInput.commentText
       (fst (CommentListInput.run None CommentListInput.initial
               CommentListInput.overlong)))
    <= CommentListInput.maxLength + 0 + emoji_units CommentListInput.overlong.
Proof.
  apply (CommentListInput_text_bounded None CommentListInput.overlong
           CommentListInput.initial 0).
  unfold CommentListInput.maxLength. simpl. lia.
Defined.

(** * Further properties of the blog pages *)

(** ** The images of a new blog *)

Section CreateBlogImages.
Variable File : Type.
Variable createObjectURL : File -> string.

Lemma filter_not_index_map {A B : Type} (f : A -> B) index l : forall i,
  CreateBlogPage.filter_not_index index i (map f l)
    = map f (CreateBlogPage.filter_not_index index i l).
Proof.
  induction l as [|a l IH]; intros i; simpl; [reflexivity|].
  destruct (negb (Nat.eqb i index)); simpl; rewrite IH; reflexivity.
Qed.

Lemma filter_not_index_length {A : Type} index (l : list A) : forall i,
  List.length (CreateBlogPage.filter_not_index index i l) <= List.length l.
Proof.
  induction l as [|a l IH]; intros i; simpl; [lia|].
  specialize (IH (S i)). destruct (negb (Nat.eqb i index)); simpl; lia.
Qed.

Lemma filter_not_index_past {A : Type} index (l : list A) : forall i,
  index < i -> CreateBlogPage.filter_not_index index i l = l.
Proof.
  induction l as [|a l IH]; intros i Hi; simpl; [reflexivity|].
  replace (Nat.eqb i index) with false by (symmetry; apply Nat.eqb_neq; lia).
  simpl. rewrite IH by lia. reflexivity.
Qed.

Lemma filter_not_index_cut {A : Type} index (l : list A) : forall i,
  i <= index ->
  CreateBlogPage.filter_not_index index i l
    = firstn (index - i) l ++ skipn (S (index - i)) l.
Proof.
  induction l as [|a l IH]; intros i Hi; [destruct (index - i); reflexivity|].
  cbn [CreateBlogPage.filter_not_index].
  destruct (Nat.eqb_spec i index) as [->|Hne].
  - rewrite Nat.sub_diag. simpl. apply filter_not_index_past. lia.
  - simpl negb. cbv iota. rewrite IH by lia.
    replace (index - i) with (S (index - S i)) by lia. reflexivity.
Qed.

Lemma images_aligned_step s e :
  CreateBlogPage.images_aligned createObjectURL s ->
  CreateBlogPage.images_aligned createObjectURL
    (fst (CreateBlogPage.step createObjectURL s e)) /\
  forall files, snd (CreateBlogPage.step createObjectURL s e) = Some files ->
                List.length files <= 5.
Proof.
  intros [Hp Hl]. destruct e as [newFiles|index| |token outcome]; simpl.
  - split; [|discriminate]. unfold CreateBlogPage.handleImageChange.
    destruct (Nat.ltb_spec 5 (List.length (CreateBlogPage.imageFiles s)
                              + List.length newFiles)) as [H|H].
    + split; assumption.
    + split; simpl.
      * rewrite map_app, Hp. reflexivity.
      * rewrite length_app. exact H.
  - split; [|discriminate]. split; simpl.
    + rewrite Hp. apply filter_not_index_map.
    + pose proof (filter_not_index_length index (CreateBlogPage.imageFiles s) 0). lia.
  - split; [|discriminate]. split; simpl; [reflexivity|lia].
  - unfold CreateBlogPage.onSubmit.
    destruct (negb (truthy_opt token)); simpl; [split; [split; assumption|discriminate]|].
    destruct outcome; simpl.
    + split; [split; simpl; [reflexivity|lia]|]. intros files [= <-]. exact Hl.
    + split; [split; assumption|]. intros files [= <-]. exact Hl.
Qed.

(** X16. On the page that creates a blog, whatever images are picked,
    removed or cleared and whatever is submitted, in whatever order, there
    are never more than five images, each preview is that of the file at
    the same place, and no request carries more than five images. *)
Theorem images_stay_aligned (es : list (CreateBlogPage.Event File))
    (s : CreateBlogPage.State File) :
  CreateBlogPage.images_aligned createObjectURL s ->
  CreateBlogPage.images_aligned createObjectURL
    (fst (CreateBlogPage.run createObjectURL s es)) /\
  Forall (fun files => List.length files <= 5)
         (snd (CreateBlogPage.run createObjectURL s es)).
Proof.
  revert s. induction es as [|e es IH]; intros s Hs; cbn [CreateBlogPage.run].
  - split; [exact Hs|constructor].
  - destruct (images_aligned_step s e Hs) as [H1 H2].
    destruct (CreateBlogPage.step createObjectURL s e) as [s1 sent].
    cbn [fst snd] in H1, H2. destruct (IH s1 H1) as [H3 H4].
    destruct (CreateBlogPage.run createObjectURL s1 es) as [s2 rest].
    cbn [fst snd] in *. split; [exact H3|].
    destruct sent as [files|]; [constructor; auto|exact H4].
Qed.

(** X17. Removing the image at an index takes out the file and the
    preview at that index and keeps the others in their order; an index
    past the end removes nothing. *)
Theorem removeImage_at (index : nat) (s : CreateBlogPage.State File) :
  CreateBlogPage.imageFiles (CreateBlogPage.removeImage index s)
    = firstn index (CreateBlogPage.imageFiles s)
      ++ skipn (S index) (CreateBlogPage.imageFiles s) /\
  CreateBlogPage.previewUrls (CreateBlogPage.removeImage index s)
    = firstn index (CreateBlogPage.previewUrls s)
      ++ skipn (S index) (CreateBlogPage.previewUrls s) /\
  (List.length (CreateBlogPage.imageFiles s) <= index ->
   CreateBlogPage.imageFiles (CreateBlogPage.removeImage index s)
     = CreateBlogPage.imageFiles s) /\
  (index < List.length (CreateBlogPage.imageFiles s) ->
   S (List.length (CreateBlogPage.imageFiles (CreateBlogPage.removeImage index s)))
     = List.length (CreateBlogPage.imageFiles s)).
Proof.
  assert (E : forall A (l : list A),
    CreateBlogPage.filter_not_index index 0 l = firstn index l ++ skipn (S index) l).
  { intros A l. rewrite filter_not_index_cut by lia. rewrite Nat.sub_0_r. reflexivity. }
  unfold CreateBlogPage.removeImage; simpl. rewrite !E.
  split; [reflexivity|]. split; [reflexivity|]. split.
  - intros H. rewrite firstn_all2 by exact H. rewrite skipn_all2 by lia.
    apply app_nil_r.
  - intros H. rewrite length_app, length_firstn, length_skipn. lia.
Qed.
End CreateBlogImages.

Lemma images_stay_aligned_witness :
  List.length
    (CreateBlogPage.imageFiles
       (fst (CreateBlogPage.run (fun f : string => f) CreateBlogPage.initial
               [CreateBlogPage.PickImages ["a"; "b"; "c"];
                CreateBlogPage.PickImages ["d"; "e"; "f"];
                CreateBlogPage.RemoveImage 1])))
    <= 5.
Proof.
  apply (images_stay_aligned string (fun f => f)
           [CreateBlogPage.PickImages ["a"; "b"; "c"];
            CreateBlogPage.PickImages ["d"; "e"; "f"];
            CreateBlogPage.RemoveImage 1]
           CreateBlogPage.initial).
  split; simpl; [reflexivity|lia].
Defined.

Lemma removeImage_at_witness :
  CreateBlogPage.imageFiles
    (CreateBlogPage.removeImage 1 (CreateBlogPage.mkState false ["a"; "b"; "c"] ["x"; "y"; "z"]))
    = ["a"; "c"] /\
  CreateBlogPage.imageFiles
    (CreateBlogPage.removeImage 7 (CreateBlogPage.mkState false ["a"; "b"; "c"] ["x"; "y"; "z"]))
    = ["a"; "b"; "c"].
Proof.
  split.
  - apply (removeImage_at string 1
             (CreateBlogPage.mkState false ["a"; "b"; "c"] ["x"; "y"; "z"])).
  - apply (removeImage_at string 7
             (CreateBlogPage.mkState false ["a"; "b"; "c"] ["x"; "y"; "z"])).
    simpl. lia.
Defined.

(** ** The lightbox *)

Lemma Lightbox_step_invariant n s e :
  (exists i, Lightbox.photoIndex s = Lightbox.Index i /\ (i = 0 \/ i < n)) ->
  (Lightbox.isLightboxOpen s = true -> 0 < n) ->
  (exists i, Lightbox.photoIndex (Lightbox.step n s e) = Lightbox.Index i /\
             (i = 0 \/ i < n)) /\
  (Lightbox.isLightboxOpen (Lightbox.step n s e) = true -> 0 < n).
Proof.
  intros (i & Hi & Hb) Ho. unfold Lightbox.step.
  destruct (Lightbox.rendered n s e) eqn:R; simpl; [|split; eauto].
  destruct e; simpl in *.
  - apply Nat.ltb_lt in R. split; [eauto|auto].
  - apply andb_true_iff in R. destruct R as [R1 R2].
    apply Nat.ltb_lt in R1, R2. split; [|lia].
    exists (index + 1). split; [reflexivity|lia].
  - specialize (Ho R). rewrite Hi. simpl.
    replace (Nat.eqb n 0) with false by (symmetry; apply Nat.eqb_neq; lia).
    split; [|auto]. eexists. split; [reflexivity|]. right.
    apply Nat.mod_upper_bound. lia.
  - specialize (Ho R). rewrite Hi. simpl.
    replace (Nat.eqb n 0) with false by (symmetry; apply Nat.eqb_neq; lia).
    split; [|auto]. eexists. split; [reflexivity|]. right.
    apply Nat.mod_upper_bound. lia.
  - split; [eauto|discriminate].
Qed.

(** X18. Whatever is clicked on the blog page, in whatever order, while
    the lightbox is open the photo index is a number below the number of
    images of the blog: the image shown exists, and the index is never
    NaN. *)
Theorem Lightbox_index_in_bounds (n : nat) (es : list Lightbox.Event) :
  Lightbox.isLightboxOpen (fold_left (Lightbox.step n) es Lightbox.initial) = true ->
  exists i,
    Lightbox.photoIndex (fold_left (Lightbox.step n) es Lightbox.initial)
      = Lightbox.Index i /\ i < n.
Proof.
  assert (H : forall s,
    (exists i, Lightbox.photoIndex s = Lightbox.Index i /\ (i = 0 \/ i < n)) ->
    (Lightbox.isLightboxOpen s = true -> 0 < n) ->
    (exists i, Lightbox.photoIndex (fold_left (Lightbox.step n) es s)
               = Lightbox.Index i /\ (i = 0 \/ i < n)) /\
    (Lightbox.isLightboxOpen (fold_left (Lightbox.step n) es s) = true -> 0 < n)).
  { induction es as [|e es IH]; intros s H1 H2; simpl; [auto|].
    destruct (Lightbox_step_invariant n s e H1 H2) as [H3 H4]. apply IH; assumption. }
  destruct (H Lightbox.initial) as [(i & Hi & Hb) Ho].
  - exists 0. simpl. auto.
  - discriminate.
  - intros Hopen. exists i. split; [exact Hi|]. specialize (Ho Hopen). lia.
Qed.

Lemma Lightbox_index_in_bounds_witness :
  exists i,
    Lightbox.photoIndex
      (fold_left (Lightbox.step 3)
         [Lightbox.ClickThumbnail 1; Lightbox.ClickNext; Lightbox.ClickNext]
         Lightbox.initial) = Lightbox.Index i /\ i < 3.
Proof.
  apply (Lightbox_index_in_bounds 3
           [Lightbox.ClickThumbnail 1; Lightbox.ClickNext; Lightbox.ClickNext]).
  reflexivity.
Defined.

(** X19. For an index below the number of images, the next and previous
    buttons undo each other, the next of the last image is the first, and
    the previous of the first is the last. *)
Theorem Lightbox_previous_next (n i : nat) :
  i < n ->
  Lightbox.previousIndex (Lightbox.nextIndex (Lightbox.Index i) n) n = Lightbox.Index i /\
  Lightbox.nextIndex (Lightbox.previousIndex (Lightbox.Index i) n) n = Lightbox.Index i /\
  Lightbox.nextIndex (Lightbox.Index (n - 1)) n = Lightbox.Index 0 /\
  Lightbox.previousIndex (Lightbox.Index 0) n = Lightbox.Index (n - 1).
Proof.
  intros Hi. unfold Lightbox.previousIndex, Lightbox.nextIndex.
  replace (Nat.eqb n 0) with false by (symmetry; apply Nat.eqb_neq; lia).
  assert (Hnext : (i + 1) mod n = if Nat.eqb (i + 1) n then 0 else i + 1).
  { destruct (Nat.eqb_spec (i + 1) n) as [E|E].
    - rewrite E. apply Nat.Div0.mod_same.
    - apply Nat.mod_small. lia. }
  assert (Hprev : (i + n - 1) mod n = if Nat.eqb i 0 then n - 1 else i - 1).
  { destruct (Nat.eqb_spec i 0) as [E|E].
    - subst. apply Nat.mod_small. lia.
    - replace (i + n - 1) with (i - 1 + 1 * n) by lia.
      rewrite Nat.Div0.mod_add. apply Nat.mod_small. lia. }
  repeat split; f_equal.
  - rewrite Hnext. destruct (Nat.eqb_spec (i + 1) n) as [E|E].
    + replace (0 + n - 1) with i by lia. apply Nat.mod_small. exact Hi.
    + replace (i + 1 + n - 1) with (i + 1 * n) by lia.
      rewrite Nat.Div0.mod_add. apply Nat.mod_small. lia.
  - rewrite Hprev. destruct (Nat.eqb_spec i 0) as [E|E].
    + subst. replace (n - 1 + 1) with n by lia. apply Nat.Div0.mod_same.
    + replace (i - 1 + 1) with i by lia. apply Nat.mod_small. exact Hi.
  - replace (n - 1 + 1) with n by lia. apply Nat.Div0.mod_same.
  - replace (0 + n - 1) with (n - 1) by lia. apply Nat.mod_small. lia.
Qed.

Lemma Lightbox_previous_next_witness :
  Lightbox.previousIndex (Lightbox.nextIndex (Lightbox.Index 2) 3) 3 = Lightbox.Index 2.
Proof. apply (Lightbox_previous_next 3 2). lia. Defined.

(** ** The view counter *)

Lemma includes_In l x : ViewCounter.includes l x = true <-> In x l.
Proof.
  unfold ViewCounter.includes. rewrite existsb_exists. split.
  - intros (y & Hy & E). apply String.eqb_eq in E. congruence.
  - intros H. exists x. split; [exact H|apply String.eqb_refl].
Qed.

Lemma requests_none blogId outcomes s :
  ViewCounter.includes (ViewCounter.viewedBlogs s) blogId = true ->
  ViewCounter.requests blogId outcomes s = 0.
Proof.
  intros H. induction outcomes as [|o os IH]; simpl; [reflexivity|].
  unfold ViewCounter.incrementViewCount. rewrite H. exact IH.
Qed.

(** X20. A view is counted once in a session: after a call that the
    server counted, the blog is among the viewed ones, every later call for
    it sends no request and changes nothing; a call that was not counted
    leaves the state as it was, so that the next one tries again; and the
    stored list never holds an id twice. *)
Theorem view_counted_once (blogId : string) (readCount : nat)
    (s : ViewCounter.State) (outcomes : list ViewCounter.ViewOutcome)
    (o : ViewCounter.ViewOutcome) :
  ViewCounter.includes (ViewCounter.viewedBlogs s) blogId = false ->
  let s' := fst (ViewCounter.incrementViewCount blogId (ViewCounter.Counted readCount) s) in
  snd (ViewCounter.incrementViewCount blogId (ViewCounter.Counted readCount) s) = true /\
  ViewCounter.includes (ViewCounter.viewedBlogs s') blogId = true /\
  ViewCounter.incrementViewCount blogId o s' = (s', false) /\
  ViewCounter.requests blogId outcomes s' = 0 /\
  ViewCounter.incrementViewCount blogId ViewCounter.NotCounted s = (s, true) /\
  (NoDup (ViewCounter.viewedBlogs s) -> NoDup (ViewCounter.viewedBlogs s')).
Proof.
  intros H. unfold ViewCounter.incrementViewCount. rewrite H. simpl.
  assert (Hin : ViewCounter.includes (ViewCounter.viewedBlogs s ++ [blogId]) blogId = true).
  { apply includes_In, in_or_app. right. left. reflexivity. }
  split; [reflexivity|]. split; [exact Hin|]. split.
  - unfold ViewCounter.viewedBlogs at 1. simpl. rewrite Hin. reflexivity.
  - split; [apply requests_none; exact Hin|]. split; [reflexivity|].
    intros Hnd. unfold ViewCounter.viewedBlogs at 1. simpl.
    apply NoDup_app; [exact Hnd|repeat constructor; auto|].
    intros a Ha [<-|[]]. apply includes_In in Ha. congruence.
Qed.

Lemma view_counted_once_witness :
  ViewCounter.requests "b1"
    [ViewCounter.Counted 8; ViewCounter.NotCounted]
    (fst (ViewCounter.incrementViewCount "b1" (ViewCounter.Counted 7)
            (ViewCounter.mkState None None))) = 0.
Proof.
  apply (view_counted_once "b1" 7 (ViewCounter.mkState None None)
           [ViewCounter.Counted 8; ViewCounter.NotCounted] ViewCounter.NotCounted eq_refl).
Defined.

(** ** Loading a blog *)

Lemma fetchBlog_failure settled err s :
  BlogDetailPage.issues_request s = true ->
  BlogDetailPage.try_block settled = inr err ->
  BlogDetailPage.is_abort err = false ->
  BlogDetailPage.fetchBlogAndIncrementView settled s =
    if Nat.ltb (BlogDetailPage.st_retryCount s) BlogDetailPage.maxRetries then
      BlogDetailPage.mkState (BlogDetailPage.st_blog s) false None
        (BlogDetailPage.st_retryCount s + 1)
    else
      BlogDetailPage.mkState (BlogDetailPage.st_blog s) false
        (Some BlogDetailPage.failureMessage) (BlogDetailPage.st_retryCount s).
Proof.
  intros Hs Ht Ha. unfold BlogDetailPage.fetchBlogAndIncrementView.
  rewrite Hs, Ht. simpl. unfold BlogDetailPage.catch_block. rewrite Ha. simpl.
  destruct (Nat.ltb _ _); reflexivity.
Qed.

(** X21. However often the blog is fetched and however the fetches end,
    the retry count never exceeds [maxRetries]. *)
Theorem retryCount_bounded (outcomes : list BlogDetailPage.Settled)
    (s : BlogDetailPage.State) :
  BlogDetailPage.st_retryCount s <= BlogDetailPage.maxRetries ->
  BlogDetailPage.st_retryCount
    (fold_left (fun st o => BlogDetailPage.fetchBlogAndIncrementView o st) outcomes s)
    <= BlogDetailPage.maxRetries.
Proof.
  revert s. induction outcomes as [|o os IH]; intros s Hs; simpl; [exact Hs|].
  apply IH. unfold BlogDetailPage.fetchBlogAndIncrementView.
  destruct (negb (BlogDetailPage.issues_request s)); [exact Hs|].
  cbv zeta. destruct (BlogDetailPage.try_block o) as [b|err]; simpl; [lia|].
  unfold BlogDetailPage.catch_block.
  destruct (BlogDetailPage.is_abort err); simpl; [exact Hs|].
  destruct (Nat.ltb_spec (BlogDetailPage.st_retryCount s) BlogDetailPage.maxRetries);
    simpl; unfold BlogDetailPage.maxRetries in *; lia.
Qed.

Lemma retryCount_bounded_witness :
  BlogDetailPage.st_retryCount
    (fold_left (fun st o => BlogDetailPage.fetchBlogAndIncrementView o st)
       (repeat (BlogDetailPage.Rejected BlogDetailPage.NotAnError) 6)
       (BlogDetailPage.mkState None true None 0))
    <= BlogDetailPage.maxRetries.
Proof.
  apply (retryCount_bounded (repeat (BlogDetailPage.Rejected BlogDetailPage.NotAnError) 6)
           (BlogDetailPage.mkState None true None 0)).
  unfold BlogDetailPage.maxRetries. simpl. lia.
Defined.

Lemma failures_from outcomes : forall k l e,
  k <= 3 ->
  Forall (fun o => exists err, BlogDetailPage.try_block o = inr err /\
                               BlogDetailPage.is_abort err = false) outcomes ->
  outcomes <> [] ->
  fold_left (fun st o => BlogDetailPage.fetchBlogAndIncrementView o st) outcomes
    (BlogDetailPage.mkState None l e k) =
  BlogDetailPage.mkState None false
    (if Nat.leb (k + List.length outcomes) 3 then None
     else Some BlogDetailPage.failureMessage)
    (Nat.min (k + List.length outcomes) 3).
Proof.
  induction outcomes as [|o os IH]; intros k l e Hk Hall Hne; [congruence|].
  inversion Hall as [|? ? (err & Ht & Ha) Hos]; subst.
  cbn [fold_left].
  rewrite (fetchBlog_failure o err (BlogDetailPage.mkState None l e k) eq_refl Ht Ha).
  cbn [BlogDetailPage.st_retryCount BlogDetailPage.st_blog].
  change BlogDetailPage.maxRetries with 3.
  destruct (Nat.ltb_spec k 3) as [Hlt|Hge].
  - destruct os as [|o' os'].
    + cbn [fold_left List.length].
      replace (Nat.leb (k + 1) 3) with true by (symmetry; apply Nat.leb_le; lia).
      f_equal. lia.
    + rewrite IH by (lia || assumption || discriminate).
      replace (k + 1 + List.length (o' :: os')) with (k + List.length (o :: o' :: os'))
        by (cbn [List.length]; lia).
      reflexivity.
  - assert (k = 3) by lia. subst k.
    destruct os as [|o' os'].
    + reflexivity.
    + rewrite IH by (lia || assumption || discriminate).
      cbn [List.length].
      replace (Nat.leb (3 + S (List.length os')) 3) with false
        by (symmetry; apply Nat.leb_gt; lia).
      replace (Nat.leb (3 + S (S (List.length os'))) 3) with false
        by (symmetry; apply Nat.leb_gt; lia).
      f_equal; lia.
Qed.

(** X22. While no blog is loaded, fetches that fail without an abort are
    retried silently: after [m] such failures in a row from the first
    load, the retry count is the smaller of [m] and [maxRetries], and the
    general failure message is shown exactly from the fourth failure on. *)
Theorem failures_until_message (outcomes : list BlogDetailPage.Settled) :
  Forall (fun o => exists err, BlogDetailPage.try_block o = inr err /\
                               BlogDetailPage.is_abort err = false) outcomes ->
  fold_left (fun st o => BlogDetailPage.fetchBlogAndIncrementView o st) outcomes
    (BlogDetailPage.mkState None true None 0) =
  BlogDetailPage.mkState None
    (match outcomes with [] => true | _ :: _ => false end)
    (if Nat.leb (List.length outcomes) BlogDetailPage.maxRetries then None
     else Some BlogDetailPage.failureMessage)
    (Nat.min (List.length outcomes) BlogDetailPage.maxRetries).
Proof.
  intros H. destruct outcomes as [|o os]; [reflexivity|].
  rewrite failures_from by (lia || assumption || discriminate).
  reflexivity.
Qed.

Lemma failures_until_message_witness :
  BlogDetailPage.st_error
    (fold_left (fun st o => BlogDetailPage.fetchBlogAndIncrementView o st)
       (repeat (BlogDetailPage.Rejected BlogDetailPage.NotAnError) 4)
       (BlogDetailPage.mkState None true None 0))
    = Some BlogDetailPage.failureMessage.
Proof.
  rewrite (failures_until_message
             (repeat (BlogDetailPage.Rejected BlogDetailPage.NotAnError) 4)).
  - reflexivity.
  - repeat constructor; exists BlogDetailPage.NotAnError; split; reflexivity.
Defined.

(** X23. When the fetch brings a blog, the blog is stored, the error is
    cleared and the retry count is back at zero; from then on calling the
    callback again issues no request and changes nothing, however a fetch
    would end. *)
Theorem blog_loaded_once (settled settled' : BlogDetailPage.Settled)
    (b : BlogDetailPage.Blog) (s : BlogDetailPage.State) :
  BlogDetailPage.issues_request s = true ->
  BlogDetailPage.try_block settled = inl b ->
  BlogDetailPage.fetchBlogAndIncrementView settled s
    = BlogDetailPage.mkState (Some b) false None 0 /\
  BlogDetailPage.issues_request (BlogDetailPage.fetchBlogAndIncrementView settled s)
    = false /\
  BlogDetailPage.fetchBlogAndIncrementView settled'
    (BlogDetailPage.fetchBlogAndIncrementView settled s)
    = BlogDetailPage.fetchBlogAndIncrementView settled s.
Proof.
  intros Hs Ht.
  assert (E : BlogDetailPage.fetchBlogAndIncrementView settled s
              = BlogDetailPage.mkState (Some b) false None 0).
  { unfold BlogDetailPage.fetchBlogAndIncrementView. rewrite Hs, Ht. reflexivity. }
  rewrite E. repeat split.
Qed.

Lemma blog_loaded_once_witness :
  BlogDetailPage.fetchBlogAndIncrementView
    (BlogDetailPage.Fulfilled
       (BlogDetailPage.mkResponse true 200 "OK" true
          (inl (BlogDetailPage.mkData true
                  (Some (BlogDetailPage.mkBlog "b1" "t" "c" "s" 0 0)) None))))
    (BlogDetailPage.mkState None true None 2)
  = BlogDetailPage.mkState (Some (BlogDetailPage.mkBlog "b1" "t" "c" "s" 0 0)) false None 0.
Proof.
  apply (blog_loaded_once
           (BlogDetailPage.Fulfilled
              (BlogDetailPage.mkResponse true 200 "OK" true
                 (inl (BlogDetailPage.mkData true
                         (Some (BlogDetailPage.mkBlog "b1" "t" "c" "s" 0 0)) None))))
           (BlogDetailPage.Rejected BlogDetailPage.NotAnError)
           (BlogDetailPage.mkBlog "b1" "t" "c" "s" 0 0)
           (BlogDetailPage.mkState None true None 2) eq_refl eq_refl).
Defined.

(** X24. When the callback issues the request and the awaited fetch is
    rejected with an [Error] named AbortError, the page is left with the
    blog and the retry count it had, not loading, and the message "Request
    timed out. Please check your connection."; that message is shown in no
    other case: every other outcome stores the blog that came, or counts
    one more retry without a message while the count is below three, or
    shows the general failure message once the count is three. *)
Theorem abort_shows_timeout (s : BlogDetailPage.State)
    (settled : BlogDetailPage.Settled) :
  BlogDetailPage.issues_request s = true ->
  (forall m,
     BlogDetailPage.fetchBlogAndIncrementView
       (BlogDetailPage.Rejected (BlogDetailPage.ErrorObject "AbortError" m)) s
     = BlogDetailPage.mkState (BlogDetailPage.st_blog s) false
         (Some "Request timed out. Please check your connection.")
         (BlogDetailPage.st_retryCount s)) /\
  (BlogDetailPage.st_error (BlogDetailPage.fetchBlogAndIncrementView settled s)
     = Some "Request timed out. Please check your connection." <->
   exists m, settled = BlogDetailPage.Rejected
                         (BlogDetailPage.ErrorObject "AbortError" m)) /\
  ((forall m, settled <> BlogDetailPage.Rejected
                           (BlogDetailPage.ErrorObject "AbortError" m)) ->
   (exists b, BlogDetailPage.try_block settled = inl b /\
              BlogDetailPage.fetchBlogAndIncrementView settled s
              = BlogDetailPage.mkState (Some b) false None 0) \/
   (BlogDetailPage.st_retryCount s < 3 /\
    BlogDetailPage.fetchBlogAndIncrementView settled s
    = BlogDetailPage.mkState (BlogDetailPage.st_blog s) false None
        (BlogDetailPage.st_retryCount s + 1)) \/
   (3 <= BlogDetailPage.st_retryCount s /\
    BlogDetailPage.fetchBlogAndIncrementView settled s
    = BlogDetailPage.mkState (BlogDetailPage.st_blog s) false
        (Some "Failed to load blog. It may not exist or the server is unreachable.")
        (BlogDetailPage.st_retryCount s))).
Proof.
  intros Hs.
  assert (Habort : forall m,
    BlogDetailPage.fetchBlogAndIncrementView
      (BlogDetailPage.Rejected (BlogDetailPage.ErrorObject "AbortError" m)) s
    = BlogDetailPage.mkState (BlogDetailPage.st_blog s) false
        (Some "Request timed out. Please check your connection.")
        (BlogDetailPage.st_retryCount s)).
  { intros m. unfold BlogDetailPage.fetchBlogAndIncrementView. rewrite Hs. reflexivity. }
  assert (Hother :
    (forall m, settled <> BlogDetailPage.Rejected
                            (BlogDetailPage.ErrorObject "AbortError" m)) ->
    (exists b, BlogDetailPage.try_block settled = inl b /\
               BlogDetailPage.fetchBlogAndIncrementView settled s
               = BlogDetailPage.mkState (Some b) false None 0) \/
    (BlogDetailPage.st_retryCount s < 3 /\
     BlogDetailPage.fetchBlogAndIncrementView settled s
     = BlogDetailPage.mkState (BlogDetailPage.st_blog s) false None
         (BlogDetailPage.st_retryCount s + 1)) \/
    (3 <= BlogDetailPage.st_retryCount s /\
     BlogDetailPage.fetchBlogAndIncrementView settled s
     = BlogDetailPage.mkState (BlogDetailPage.st_blog s) false
         (Some "Failed to load blog. It may not exist or the server is unreachable.")
         (BlogDetailPage.st_retryCount s))).
  { intros Hn.
    destruct (BlogDetailPage.try_block settled) as [b|err] eqn:Ht.
    - left. exists b. split; [reflexivity|].
      unfold BlogDetailPage.fetchBlogAndIncrementView. rewrite Hs, Ht. reflexivity.
    - right.
      assert (Ha : BlogDetailPage.is_abort err = false).
      { destruct (BlogDetailPage.is_abort err) eqn:Ha; [|reflexivity]. exfalso.
        pose proof (try_block_abort settled err Ht Ha) as E.
        apply is_abort_name in Ha. destruct Ha as (m & ->). exact (Hn m E). }
      rewrite (fetchBlog_failure settled err s Hs Ht Ha).
      change BlogDetailPage.maxRetries with 3.
      destruct (Nat.ltb_spec (BlogDetailPage.st_retryCount s) 3); [left|right]; auto. }
  split; [exact Habort|]. split; [|exact Hother].
  split.
  - intros H.
    assert (Hdec : (exists m, settled = BlogDetailPage.Rejected
                                (BlogDetailPage.ErrorObject "AbortError" m)) \/
                   (forall m, settled <> BlogDetailPage.Rejected
                                (BlogDetailPage.ErrorObject "AbortError" m))).
    { destruct settled as [r|[name m|]]; try (right; intros m'; discriminate).
      destruct (String.eqb_spec name "AbortError") as [->|Hne]; [left; eauto|].
      right. intros m' E. congruence. }
    destruct Hdec as [Hex|Hn]; [exact Hex|]. exfalso.
    destruct (Hother Hn) as [(b & _ & E)|[[_ E]|[_ E]]];
      rewrite E in H; discriminate.
  - intros (m & ->). rewrite Habort. reflexivity.
Qed.

Lemma abort_shows_timeout_witness :
  BlogDetailPage.fetchBlogAndIncrementView
    (BlogDetailPage.Rejected
       (BlogDetailPage.ErrorObject "AbortError" "The user aborted a request."))
    (BlogDetailPage.mkState None true None 2)
  = BlogDetailPage.mkState None false
      (Some "Request timed out. Please check your connection.") 2.
Proof.
  apply (abort_shows_timeout (BlogDetailPage.mkState None true None 2)
           (BlogDetailPage.Rejected BlogDetailPage.NotAnError) eq_refl).
Defined.
